(** * Photon mapping integrator: a shallow embedding of
      [src/include/integrator.h] and of the driver loop of [src/main.cpp].

    The C++ code computes with [float], [int] and small vectors, draws random
    numbers from a stateful sampler and queries a scene and two photon maps.
    The embedding keeps that shape:

    - [float] arithmetic is an interface ([FloatArith]); every definition and
      theorem is stated over an arbitrary implementation of it, and the IEEE
      binary32 implementation built on the standard library's [SpecFloat] is
      used to run the code on concrete inputs;
    - the collaborators whose headers are not part of the sources at hand
      (scene, primitives, lights, sampler, k-d tree) are an interface
      ([SceneModel]);
    - the sampler is threaded explicitly: a function that receives
      [Sampler &] returns the new sampler state next to its result. *)

From Stdlib Require Import ZArith List Bool String Ascii Lia Permutation.
From Stdlib Require Import Floats.SpecFloat.
Import ListNotations.
Open Scope Z_scope.

(** ** Scalars *)

(** The operations of [float] that the sources use.  [fleb a b] is [a <= b],
    [fltb a b] is [a < b]; [of_int] is the implicit [int -> float]
    conversion and [to_int] the implicit [float -> int] one. *)
Class FloatArith (F : Type) := {
  of_int : Z -> F;
  to_int : F -> Z;
  fadd : F -> F -> F;
  fsub : F -> F -> F;
  fmul : F -> F -> F;
  fdiv : F -> F -> F;
  fneg : F -> F;
  fabs : F -> F;
  fsqrt : F -> F;
  fltb : F -> F -> bool;
  fleb : F -> F -> bool;
  fisnan : F -> bool
}.

Declare Scope float_scope.
Delimit Scope float_scope with fl.
Infix "+" := fadd : float_scope.
Infix "-" := fsub : float_scope.
Infix "*" := fmul : float_scope.
Infix "/" := fdiv : float_scope.
Infix "<?" := fltb : float_scope.
Infix "<=?" := fleb : float_scope.

Section Scalars.
Context {F : Type} {FA : FloatArith F}.

(** [a >= b] on floats. *)
Definition fgeb (a b : F) : bool := fleb b a.

(** [std::max(a, b)] is [(a < b) ? b : a]. *)
Definition fmax (a b : F) : F := if fltb a b then b else a.

(** [std::min(a, b)] is [(b < a) ? b : a]. *)
Definition fmin (a b : F) : F := if fltb b a then b else a.

(** The literals [0], [1.0f] and [2.0f]. *)
Definition f0 : F := of_int 0.
Definition f1 : F := of_int 1.
Definition f2 : F := of_int 2.
End Scalars.

(** ** IEEE binary32 *)

Module Binary32.
Definition prec : Z := 24.
Definition emax : Z := 128.

Definition float32 : Type := spec_float.

Definition of_Z (z : Z) : float32 := binary_normalize prec emax z 0 false.

(** Truncation toward zero; the conversion of an infinity or of a NaN is
    undefined in C++ and is given the value 0 here. *)
Definition trunc (x : float32) : Z :=
  match x with
  | S754_finite s m e =>
      let a := match e with
               | Z0 => Zpos m
               | Zpos p => Z.shiftl (Zpos m) (Zpos p)
               | Zneg p => Z.shiftr (Zpos m) (Zpos p)
               end in
      if s then Z.opp a else a
  | _ => 0
  end.

Definition is_nan (x : float32) : bool :=
  match x with S754_nan => true | _ => false end.

#[global] Instance float32_arith : FloatArith float32 := {|
  of_int := of_Z;
  to_int := trunc;
  fadd := SFadd prec emax;
  fsub := SFsub prec emax;
  fmul := SFmul prec emax;
  fdiv := SFdiv prec emax;
  fneg := SFopp;
  fabs := SFabs;
  fsqrt := SFsqrt prec emax;
  fltb := SFltb;
  fleb := SFleb;
  fisnan := is_nan
|}.

(** [m / 2^k] as a binary32 value, to write constants such as 0.5. *)
Definition dyadic (m : Z) (k : Z) : float32 :=
  binary_normalize prec emax m (Z.opp k) false.
End Binary32.

(** ** Vectors and geometric records *)

(** Modelled from the spec: [geometry.h] (the [Vec3f], [Ray], [SurfaceInfo]
    and [IntersectInfo] declarations) is not among the sources.  The spec's
    data model gives a photon's power as a 3-channel quantity, positions and
    directions as 3-D vectors, and a hit as the primitive reference, the
    shading normal, the geometric normal and the position.  Vector
    arithmetic is componentwise; a default-constructed [Vec3f] is zero. *)
Record Vec3f {F : Type} := mkVec3f { vx : F; vy : F; vz : F }.
Arguments Vec3f : clear implicits.
Arguments mkVec3f {F} _ _ _.

Section Vectors.
Context {F : Type} {FA : FloatArith F}.
Local Open Scope float_scope.

Definition Vec3f_fill (a : F) : Vec3f F := mkVec3f a a a.
Definition Vec3f_zero : Vec3f F := Vec3f_fill f0.

Definition vadd (a b : Vec3f F) : Vec3f F :=
  mkVec3f (vx a + vx b) (vy a + vy b) (vz a + vz b).
Definition vsub (a b : Vec3f F) : Vec3f F :=
  mkVec3f (vx a - vx b) (vy a - vy b) (vz a - vz b).
Definition vmul (a b : Vec3f F) : Vec3f F :=
  mkVec3f (vx a * vx b) (vy a * vy b) (vz a * vz b).
Definition vscale (a : Vec3f F) (k : F) : Vec3f F :=
  mkVec3f (vx a * k) (vy a * k) (vz a * k).
Definition vdivs (a : Vec3f F) (k : F) : Vec3f F :=
  mkVec3f (vx a / k) (vy a / k) (vz a / k).
Definition vneg (a : Vec3f F) : Vec3f F :=
  mkVec3f (fneg (vx a)) (fneg (vy a)) (fneg (vz a)).

Definition dot (a b : Vec3f F) : F :=
  vx a * vx b + vy a * vy b + vz a * vz b.
Definition length (a : Vec3f F) : F := fsqrt (dot a a).
Definition normalize (a : Vec3f F) : Vec3f F := vdivs a (length a).

(** [v[0]], [v[1]], [v[2]]. *)
Definition vmax3 (a : Vec3f F) : F := fmax (vx a) (fmax (vy a) (vz a)).
Definition vany (p : F -> bool) (a : Vec3f F) : bool :=
  p (vx a) || p (vy a) || p (vz a).
End Vectors.

Record SurfaceInfo {F : Type} := mkSurfaceInfo {
  position : Vec3f F;
  shadingNormal : Vec3f F;
  geometricNormal : Vec3f F
}.
Arguments SurfaceInfo : clear implicits.
Arguments mkSurfaceInfo {F} _ _ _.

(** Modelled from the spec: the two transport directions of the glossary
    ("FROM_CAMERA (importance transport) vs FROM_LIGHT (radiance
    transport)"); the enumeration itself is declared outside the sources. *)
Inductive TransportDirection := FROM_CAMERA | FROM_LIGHT.

(** Modelled from the spec: the material tag, "discriminated set {Diffuse,
    Specular}"; the enumeration itself is declared outside the sources. *)
Inductive BxDFType := DIFFUSE | SPECULAR.

Definition BxDFType_eqb (a b : BxDFType) : bool :=
  match a, b with
  | DIFFUSE, DIFFUSE | SPECULAR, SPECULAR => true
  | _, _ => false
  end.

(** ** [Integrator::cosTerm] *)

Section CosTerm.
Context {F : Type} {FA : FloatArith F}.
Local Open Scope float_scope.

(** The source ends with an [else] branch that prints an error and exits
    when [transport_dir] is neither enumerator; over the two-valued
    enumeration that branch has no input. *)
Definition cosTerm (wo wi : Vec3f F) (surfaceInfo : SurfaceInfo F)
           (transport_dir : TransportDirection) : F :=
  let wi_ns := dot wi (shadingNormal surfaceInfo) in
  let wi_ng := dot wi (geometricNormal surfaceInfo) in
  let wo_ns := dot wo (shadingNormal surfaceInfo) in
  let wo_ng := dot wo (geometricNormal surfaceInfo) in
  if (wi_ng * wi_ns <=? f0) || (wo_ng * wo_ns <=? f0) then f0
  else match transport_dir with
       | FROM_CAMERA => fabs wi_ns
       | FROM_LIGHT => fabs wo_ns * fabs wi_ng / fabs wo_ng
       end.
End CosTerm.


(** ** Rays, hits and photons *)

(** Modelled from the spec: a ray has an origin, a direction and the
    parameter bound [tmax] that [computeDirectIllumination] overwrites. *)
Record Ray {F : Type} := mkRay {
  origin : Vec3f F;
  direction : Vec3f F;
  tmax : F
}.
Arguments Ray : clear implicits.
Arguments mkRay {F} _ _ _.

Definition set_tmax {F : Type} (r : Ray F) (t : F) : Ray F :=
  mkRay (origin r) (direction r) t.

Record IntersectInfo {F P : Type} := mkIntersectInfo {
  surfaceInfo : SurfaceInfo F;
  hitPrimitive : P
}.
Arguments IntersectInfo : clear implicits.
Arguments mkIntersectInfo {F P} _ _.

(** Modelled from the spec: "Photon ... Fields: power, position, wi"; the
    sources build one with [emplace_back(throughput, position, -ray.direction)]
    and read [photon.throughput] and [photon.wi]. *)
Record Photon {F : Type} := mkPhoton {
  photon_throughput : Vec3f F;
  photon_position : Vec3f F;
  photon_wi : Vec3f F
}.
Arguments Photon : clear implicits.
Arguments mkPhoton {F} _ _ _.

(** Modelled from the spec: the photon store is "a thin wrapper around an
    append-only vector of Photons plus a Spatial Index over their positions";
    the index is a function of the vector, so the store is its vector of
    photons ([setPhotons] followed by [build]). *)
Record PhotonMap {F : Type} := mkPhotonMap { photons : list (Photon F) }.
Arguments PhotonMap : clear implicits.
Arguments mkPhotonMap {F} _.

(** ** The collaborators of the integrator *)

(** What the integrator and the driver call on the scene, the primitives,
    the lights, the camera, the sampler and the spatial index.  A method that
    takes [Sampler &] returns the advanced sampler; an out-parameter is a
    component of the result.  [sampleBxDF] returns [(f, dir, pdf)] and a
    [DirectionPair] is [(dir, f)]. *)
Class SceneModel (F : Type) := {
  PI : F;
  RAY_EPS : F;
  RAY_TMAX : F;
  Sampler : Type;
  UniformSampler : Z -> Sampler;
  getNext1D : Sampler -> F * Sampler;
  clone : Sampler -> Sampler;
  getSeed : Sampler -> Z;
  setSeed : Sampler -> Z -> Sampler;
  Primitive : Type;
  hasAreaLight : Primitive -> bool;
  Primitive_Le : Primitive -> SurfaceInfo F -> Vec3f F -> Vec3f F;
  getBxDFType : Primitive -> BxDFType;
  evaluateBxDF : Primitive -> Vec3f F -> Vec3f F -> SurfaceInfo F ->
                 TransportDirection -> Vec3f F;
  sampleBxDF : Primitive -> Vec3f F -> SurfaceInfo F -> TransportDirection ->
               Sampler -> (Vec3f F * Vec3f F * F) * Sampler;
  sampleAllBxDF : Primitive -> Vec3f F -> SurfaceInfo F ->
                  TransportDirection -> list (Vec3f F * Vec3f F);
  Light : Type;
  samplePoint : Light -> Sampler -> (SurfaceInfo F * F) * Sampler;
  sampleDirection : Light -> SurfaceInfo F -> Sampler ->
                    (Vec3f F * F) * Sampler;
  Light_Le : Light -> SurfaceInfo F -> Vec3f F -> Vec3f F;
  Scene : Type;
  intersect : Scene -> Ray F -> option (IntersectInfo F Primitive);
  sampleLight : Scene -> Sampler -> (Light * F) * Sampler;
  sampleRay : F -> F -> option (Ray F * F);
  queryKNearestPhotons : PhotonMap F -> Vec3f F -> Z -> list Z * F
}.

(** ** [class PhotonMapping] *)

Record PhotonMapping {F : Type} := mkPhotonMapping {
  nPhotonsGlobal : Z;
  nEstimationGlobal : Z;
  nPhotonsCaustics : Z;
  nEstimationCaustics : Z;
  finalGatheringDepth : Z;
  maxDepth : Z;
  globalPhotonMap : PhotonMap F;
  causticsPhotonMap : PhotonMap F
}.
Arguments PhotonMapping : clear implicits.
Arguments mkPhotonMapping {F} _ _ _ _ _ _ _ _.

Section Integrator.
Context {F : Type} {FA : FloatArith F} {SM : SceneModel F}.
Local Open Scope float_scope.

(** [Ray(origin, direction)]. *)
Definition Ray_new (o d : Vec3f F) : Ray F := mkRay o d RAY_TMAX.

(** [PhotonMap::getIthPhoton]; an index outside the vector is undefined
    behaviour in the source and reads a zero photon here. *)
Definition getIthPhoton (m : PhotonMap F) (i : Z) : Photon F :=
  nth (Z.to_nat i) (photons m) (mkPhoton Vec3f_zero Vec3f_zero Vec3f_zero).

(** The constructor: [nPhotonsCaustics(nPhotonsGlobal *
    nPhotonsCausticsMultiplier)] multiplies in [float] and converts back to
    [int]; both maps start empty. *)
Definition PhotonMapping_new (nPhotonsGlobal nEstimationGlobal : Z)
           (nPhotonsCausticsMultiplier : F)
           (nEstimationCaustics strictCalcDepth maxDepth : Z)
  : PhotonMapping F :=
  mkPhotonMapping nPhotonsGlobal nEstimationGlobal
    (to_int (of_int nPhotonsGlobal * nPhotonsCausticsMultiplier))
    nEstimationCaustics strictCalcDepth maxDepth
    (mkPhotonMap []) (mkPhotonMap []).

Definition computeRadianceWithPhotonMap (this : PhotonMapping F)
           (wo : Vec3f F) (info : IntersectInfo F Primitive) : Vec3f F :=
  let '(photon_indices, max_dist2) :=
    queryKNearestPhotons (globalPhotonMap this)
      (position (surfaceInfo info)) (nEstimationGlobal this) in
  let Lo :=
    fold_left
      (fun Lo photon_idx =>
         let photon := getIthPhoton (globalPhotonMap this) photon_idx in
         let f := evaluateBxDF (hitPrimitive info) wo (photon_wi photon)
                    (surfaceInfo info) FROM_CAMERA in
         vadd Lo (vmul f (photon_throughput photon)))
      photon_indices Vec3f_zero in
  if (0 <? Z.of_nat (List.length photon_indices))%Z
  then vdivs Lo (of_int (nPhotonsGlobal this) * PI * max_dist2)
  else Lo.

Definition computeCausticsWithPhotonMap (this : PhotonMapping F)
           (wo : Vec3f F) (info : IntersectInfo F Primitive) : Vec3f F :=
  let '(photon_indices, max_dist2) :=
    queryKNearestPhotons (causticsPhotonMap this)
      (position (surfaceInfo info)) (nEstimationGlobal this) in
  let Lo :=
    fold_left
      (fun Lo photon_idx =>
         let photon := getIthPhoton (causticsPhotonMap this) photon_idx in
         let f := evaluateBxDF (hitPrimitive info) wo (photon_wi photon)
                    (surfaceInfo info) FROM_CAMERA in
         vadd Lo (vmul f (photon_throughput photon)))
      photon_indices Vec3f_zero in
  if (0 <? Z.of_nat (List.length photon_indices))%Z
  then vdivs Lo (of_int (nPhotonsCaustics this) * PI * max_dist2)
  else Lo.

Definition computeDirectIllumination (scene : Scene) (wo : Vec3f F)
           (info : IntersectInfo F Primitive) (sampler : Sampler)
  : Vec3f F * Sampler :=
  let '((light, pdf_choose_light), sampler) := sampleLight scene sampler in
  let '((light_surf, pdf_pos_light), sampler) := samplePoint light sampler in
  let wi :=
    normalize (vsub (position light_surf) (position (surfaceInfo info))) in
  let r := length (vsub (position light_surf) (position (surfaceInfo info))) in
  let pdf_dir :=
    pdf_pos_light * r * r / fabs (dot (vneg wi) (shadingNormal light_surf)) in
  let ray_shadow :=
    set_tmax (Ray_new (position (surfaceInfo info)) wi) (r - RAY_EPS) in
  match intersect scene ray_shadow with
  | None =>
      let Le := Light_Le light light_surf (vneg wi) in
      let f := evaluateBxDF (hitPrimitive info) wo wi (surfaceInfo info)
                 FROM_CAMERA in
      let cos := fabs (dot wi (shadingNormal (surfaceInfo info))) in
      (vdivs (vmul (vscale f cos) Le) (pdf_choose_light * pdf_dir), sampler)
  | Some _ => (Vec3f_zero, sampler)
  end.

(** The recursion of [computeIndirectIlluminationRecursive] stops at
    [depth >= maxDepth]; [fuel] bounds the number of nested calls and
    [computeIndirectIlluminationRecursive] supplies [maxDepth - depth]. *)
Fixpoint computeIndirectIlluminationRecursive_fuel (fuel : nat)
         (this : PhotonMapping F) (scene : Scene) (wo : Vec3f F)
         (info : IntersectInfo F Primitive) (sampler : Sampler) (depth : Z)
  : Vec3f F * Sampler :=
  match fuel with
  | O => (Vec3f_zero, sampler)
  | S fuel' =>
    if (depth >=? maxDepth this)%Z then (Vec3f_zero, sampler)
    else
      let '((f, dir, pdf_dir), sampler) :=
        sampleBxDF (hitPrimitive info) wo (surfaceInfo info) FROM_CAMERA
          sampler in
      let cos := fabs (dot (shadingNormal (surfaceInfo info)) dir) in
      let ray_fg := Ray_new (position (surfaceInfo info)) dir in
      match intersect scene ray_fg with
      | Some info_fg =>
          let bxdf_type := getBxDFType (hitPrimitive info_fg) in
          if BxDFType_eqb bxdf_type DIFFUSE then
            (vadd Vec3f_zero
               (vdivs
                  (vmul (vscale f cos)
                     (computeRadianceWithPhotonMap this
                        (vneg (direction ray_fg)) info_fg))
                  pdf_dir),
             sampler)
          else if BxDFType_eqb bxdf_type SPECULAR then
            let '(L, sampler) :=
              computeIndirectIlluminationRecursive_fuel fuel' this scene
                (vneg (direction ray_fg)) info_fg sampler (depth + 1)%Z in
            (vadd Vec3f_zero (vdivs (vmul (vscale f cos) L) pdf_dir), sampler)
          else (Vec3f_zero, sampler)
      | None => (Vec3f_zero, sampler)
      end
  end.

Definition computeIndirectIlluminationRecursive (this : PhotonMapping F)
           (scene : Scene) (wo : Vec3f F) (info : IntersectInfo F Primitive)
           (sampler : Sampler) (depth : Z) : Vec3f F * Sampler :=
  computeIndirectIlluminationRecursive_fuel
    (Z.to_nat (maxDepth this - depth)) this scene wo info sampler depth.

Definition computeIndirectIllumination (this : PhotonMapping F)
           (scene : Scene) (wo : Vec3f F) (info : IntersectInfo F Primitive)
           (sampler : Sampler) : Vec3f F * Sampler :=
  computeIndirectIlluminationRecursive this scene wo info sampler 0%Z.

Definition sampleRayFromLight (scene : Scene) (sampler : Sampler)
  : (Ray F * Vec3f F) * Sampler :=
  let '((light, light_choose_pdf), sampler) := sampleLight scene sampler in
  let '((light_surf, light_pos_pdf), sampler) := samplePoint light sampler in
  let '((dir, light_dir_pdf), sampler) :=
    sampleDirection light light_surf sampler in
  let ray := Ray_new (position light_surf) dir in
  let throughput :=
    vscale
      (vdivs (Light_Le light light_surf dir)
         (light_choose_pdf * light_pos_pdf * light_dir_pdf))
      (fabs (dot dir (shadingNormal light_surf))) in
  ((ray, throughput), sampler).

(** [integrateRecursive]; [fuel] bounds the number of nested calls and
    [integrateRecursive] supplies [maxDepth - depth]. *)
Fixpoint integrateRecursive_fuel (fuel : nat) (this : PhotonMapping F)
         (ray : Ray F) (scene : Scene) (sampler : Sampler) (depth : Z)
  : Vec3f F * Sampler :=
  match fuel with
  | O => (Vec3f_zero, sampler)
  | S fuel' =>
    if (depth >=? maxDepth this)%Z then (Vec3f_zero, sampler)
    else
      match intersect scene ray with
      | Some info =>
        if hasAreaLight (hitPrimitive info) then
          (Primitive_Le (hitPrimitive info) (surfaceInfo info)
             (vneg (direction ray)), sampler)
        else
          let bxdf_type := getBxDFType (hitPrimitive info) in
          if BxDFType_eqb bxdf_type DIFFUSE then
            if (depth >=? finalGatheringDepth this)%Z then
              (computeRadianceWithPhotonMap this (vneg (direction ray)) info,
               sampler)
            else
              let '(Ld, sampler) :=
                computeDirectIllumination scene (vneg (direction ray)) info
                  sampler in
              let Lc :=
                computeCausticsWithPhotonMap this (vneg (direction ray)) info in
              let '(Li, sampler) :=
                computeIndirectIllumination this scene (vneg (direction ray))
                  info sampler in
              (vadd (vadd Ld Lc) Li, sampler)
          else if BxDFType_eqb bxdf_type SPECULAR then
            if (depth >=? 3)%Z then
              let '((f, dir, pdf_dir), sampler) :=
                sampleBxDF (hitPrimitive info) (vneg (direction ray))
                  (surfaceInfo info) FROM_CAMERA sampler in
              let next_ray := Ray_new (position (surfaceInfo info)) dir in
              let throughput :=
                vdivs
                  (vscale f
                     (cosTerm (vneg (direction ray)) dir (surfaceInfo info)
                        FROM_CAMERA))
                  pdf_dir in
              let '(L, sampler) :=
                integrateRecursive_fuel fuel' this next_ray scene sampler
                  (depth + 1)%Z in
              (vmul throughput L, sampler)
            else
              let dir_pairs :=
                sampleAllBxDF (hitPrimitive info) (vneg (direction ray))
                  (surfaceInfo info) FROM_CAMERA in
              fold_left
                (fun (acc : Vec3f F * Sampler) (dp : Vec3f F * Vec3f F) =>
                   let '(Lo, sampler) := acc in
                   let dir := fst dp in
                   let f := snd dp in
                   let next_ray := Ray_new (position (surfaceInfo info)) dir in
                   let throughput :=
                     vscale f
                       (fabs (dot dir (shadingNormal (surfaceInfo info)))) in
                   let '(L, sampler) :=
                     integrateRecursive_fuel fuel' this next_ray scene sampler
                       (depth + 1)%Z in
                   (vadd Lo (vmul throughput L), sampler))
                dir_pairs (Vec3f_zero, sampler)
          else (Vec3f_zero, sampler)
      | None => (Vec3f_zero, sampler)
      end
  end.

Definition integrateRecursive (this : PhotonMapping F) (ray : Ray F)
           (scene : Scene) (sampler : Sampler) (depth : Z)
  : Vec3f F * Sampler :=
  integrateRecursive_fuel (Z.to_nat (maxDepth this - depth)) this ray scene
    sampler depth.

Definition integrate (this : PhotonMapping F) (ray_in : Ray F)
           (scene : Scene) (sampler : Sampler) : Vec3f F * Sampler :=
  integrateRecursive this ray_in scene sampler 0%Z.

(** ** [PhotonMapping::build]: one bounce of a photon path *)

(** The variables that one iteration of the bounce loop reads and writes. *)
Record PathState := mkPathState {
  throughput : Vec3f F;
  ray : Ray F;
  prev_specular : bool;
  path_sampler : Sampler
}.

(** What one iteration of the [for (int k = 0; k < maxDepth; ++k)] loop
    does: it leaves the loop ([Break]) or reaches the end of the body
    ([Continue]); either way it carries the photons appended to the shared
    vector during the iteration and the state of the thread's sampler. *)
Inductive Bounce :=
| Break (deposit : list (Photon F)) (sampler : Sampler)
| Continue (deposit : list (Photon F)) (next : PathState).

(** The body of the bounce loop of the global pass. *)
Definition globalBounce (scene : Scene) (k : Z) (st : PathState) : Bounce :=
  let throughput := throughput st in
  let ray := ray st in
  let sampler := path_sampler st in
  if vany fisnan throughput then Break [] sampler
  else if vany (fun c => c <? f0) throughput then Break [] sampler
  else
    match intersect scene ray with
    | Some info =>
      let bxdf_type := getBxDFType (hitPrimitive info) in
      let deposit :=
        if BxDFType_eqb bxdf_type DIFFUSE
        then [mkPhoton throughput (position (surfaceInfo info))
                (vneg (direction ray))]
        else [] in
      (* sample direction by BxDF, update throughput and ray *)
      let scatter (throughput : Vec3f F) (sampler : Sampler) :=
        let '((f, dir, pdf_dir), sampler) :=
          sampleBxDF (hitPrimitive info) (vneg (direction ray))
            (surfaceInfo info) FROM_LIGHT sampler in
        let throughput :=
          vmul throughput
            (vdivs
               (vscale f
                  (cosTerm (vneg (direction ray)) dir (surfaceInfo info)
                     FROM_LIGHT))
               pdf_dir) in
        Continue deposit
          (mkPathState throughput (Ray_new (position (surfaceInfo info)) dir)
             (prev_specular st) sampler) in
      (* russian roulette *)
      if (k >? 0)%Z then
        let russian_roulette_prob :=
          fmin (fmax (vx throughput) (fmax (vy throughput) (vz throughput)))
            f1 in
        let '(u, sampler) := getNext1D sampler in
        if fgeb u russian_roulette_prob then Break deposit sampler
        else scatter (vdivs throughput russian_roulette_prob) sampler
      else scatter throughput sampler
    | None => Break [] sampler
    end.

(** The body of the bounce loop of the caustics pass. *)
Definition causticsBounce (scene : Scene) (k : Z) (st : PathState) : Bounce :=
  let throughput := throughput st in
  let ray := ray st in
  let sampler := path_sampler st in
  if vany fisnan throughput then Break [] sampler
  else if vany (fun c => c <? f0) throughput then Break [] sampler
  else
    match intersect scene ray with
    | Some info =>
      let bxdf_type := getBxDFType (hitPrimitive info) in
      if negb (prev_specular st) && BxDFType_eqb bxdf_type DIFFUSE then
        Break [] sampler
      else if prev_specular st && BxDFType_eqb bxdf_type DIFFUSE then
        Break [mkPhoton throughput (position (surfaceInfo info))
                 (vneg (direction ray))] sampler
      else
        let prev_specular := BxDFType_eqb bxdf_type SPECULAR in
        let scatter (throughput : Vec3f F) (sampler : Sampler) :=
          let '((f, dir, pdf_dir), sampler) :=
            sampleBxDF (hitPrimitive info) (vneg (direction ray))
              (surfaceInfo info) FROM_LIGHT sampler in
          let throughput :=
            vmul throughput
              (vdivs
                 (vscale f
                    (cosTerm (vneg (direction ray)) dir (surfaceInfo info)
                       FROM_LIGHT))
                 pdf_dir) in
          Continue []
            (mkPathState throughput
               (Ray_new (position (surfaceInfo info)) dir)
               prev_specular sampler) in
        if (k >? 0)%Z then
          let russian_roulette_prob :=
            fmin (fmax (vx throughput) (fmax (vy throughput) (vz throughput)))
              f1 in
          let '(u, sampler) := getNext1D sampler in
          if fgeb u russian_roulette_prob then Break [] sampler
          else scatter (vdivs throughput russian_roulette_prob) sampler
        else scatter throughput sampler
    | None => Break [] sampler
    end.

(** The bounce loop: [n] iterations remain and the loop counter is [k]. *)
Fixpoint bounceLoop (body : Z -> PathState -> Bounce) (n : nat) (k : Z)
         (st : PathState) : list (Photon F) * Sampler :=
  match n with
  | O => ([], path_sampler st)
  | S n' =>
      match body k st with
      | Break deposit sampler => (deposit, sampler)
      | Continue deposit next =>
          let '(rest, sampler) := bounceLoop body n' (k + 1)%Z next in
          (deposit ++ rest, sampler)
      end
  end.

(** The body of the photon loop: one path of the global pass, and one of
    the caustics pass, run on the sampler of the executing thread. *)
Definition traceGlobalPhoton (this : PhotonMapping F) (scene : Scene)
           (sampler_per_thread : Sampler) : list (Photon F) * Sampler :=
  let '((ray, throughput), sampler) :=
    sampleRayFromLight scene sampler_per_thread in
  bounceLoop (globalBounce scene) (Z.to_nat (maxDepth this)) 0%Z
    (mkPathState throughput ray false sampler).

Definition traceCausticsPhoton (this : PhotonMapping F) (scene : Scene)
           (sampler_per_thread : Sampler) : list (Photon F) * Sampler :=
  let '((ray, throughput), sampler) :=
    sampleRayFromLight scene sampler_per_thread in
  bounceLoop (causticsBounce scene) (Z.to_nat (maxDepth this)) 0%Z
    (mkPathState throughput ray false sampler).

(** ** [PhotonMapping::build]: the two photon passes *)

(** [samplers[i] = sampler.clone();
     samplers[i]->setSeed(samplers[i]->getSeed() * (i + 1));] *)
Definition initSamplers (sampler : Sampler) (nthreads : nat) : list Sampler :=
  map (fun i : nat =>
         let s := clone sampler in setSeed s (getSeed s * (Z.of_nat i + 1))%Z)
      (seq 0 nthreads).

Fixpoint list_set {A : Type} (l : list A) (i : nat) (a : A) : list A :=
  match l, i with
  | [], _ => []
  | _ :: l', O => a :: l'
  | x :: l', S i' => x :: list_set l' i' a
  end.

(** The [#pragma omp parallel for] loop over the photons, sequentialised:
    iteration [i] runs on thread [thread_of i] with that thread's sampler,
    and the iterations append to the shared vector in index order (the
    [omp critical] section makes every append atomic; another interleaving
    permutes the vector).  [omp_get_thread_num()] is below the number of
    threads; an iteration given to a thread that does not exist is not
    run. *)
Fixpoint photonLoop (trace : Sampler -> list (Photon F) * Sampler)
         (thread_of : Z -> nat) (n : nat) (i : Z) (samplers : list Sampler)
         (photons : list (Photon F)) : list (Photon F) * list Sampler :=
  match n with
  | O => (photons, samplers)
  | S n' =>
      match nth_error samplers (thread_of i) with
      | Some sampler_per_thread =>
          let '(deposit, s) := trace sampler_per_thread in
          photonLoop trace thread_of n' (i + 1)%Z
            (list_set samplers (thread_of i) s) (photons ++ deposit)
      | None => photonLoop trace thread_of n' (i + 1)%Z samplers photons
      end
  end.

Definition set_globalPhotonMap (this : PhotonMapping F) (m : PhotonMap F)
  : PhotonMapping F :=
  mkPhotonMapping (nPhotonsGlobal this) (nEstimationGlobal this)
    (nPhotonsCaustics this) (nEstimationCaustics this)
    (finalGatheringDepth this) (maxDepth this) m (causticsPhotonMap this).

Definition set_causticsPhotonMap (this : PhotonMapping F) (m : PhotonMap F)
  : PhotonMapping F :=
  mkPhotonMapping (nPhotonsGlobal this) (nEstimationGlobal this)
    (nPhotonsCaustics this) (nEstimationCaustics this)
    (finalGatheringDepth this) (maxDepth this) (globalPhotonMap this) m.

(** [build]: [nthreads] is [omp_get_max_threads()], [sched_global] and
    [sched_caustics] give the thread of every iteration of the two loops. *)
Definition build (this : PhotonMapping F) (scene : Scene) (sampler : Sampler)
           (nthreads : nat) (sched_global sched_caustics : Z -> nat)
  : PhotonMapping F :=
  let samplers := initSamplers sampler nthreads in
  let '(photons, samplers) :=
    photonLoop (traceGlobalPhoton this scene) sched_global
      (Z.to_nat (nPhotonsGlobal this)) 0%Z samplers [] in
  let this := set_globalPhotonMap this (mkPhotonMap photons) in
  if (finalGatheringDepth this >? 0)%Z then
    let '(photons, samplers) :=
      photonLoop (traceCausticsPhoton this scene) sched_caustics
        (Z.to_nat (nPhotonsCaustics this)) 0%Z samplers [] in
    set_causticsPhotonMap this (mkPhotonMap photons)
  else this.

(** ** [main]: arguments and the render loop *)

(** [int] arithmetic that can leave the range of [int] wraps around. *)
Definition wrap_int (z : Z) : Z := ((z + 2 ^ 31) mod 2 ^ 32 - 2 ^ 31)%Z.

(** The seed of [UniformSampler sampler(j + width * i)]. *)
Definition pixelSeed (width i j : Z) : Z :=
  wrap_int (j + wrap_int (width * i)).

(** What the sample loop of one pixel leaves behind: the accumulated pixel
    value, the sampler, and (as a record of the run, not a program variable)
    the camera samples [(u, v)] in the order they were drawn. *)
Record PixelRun := mkPixelRun {
  pixel_value : Vec3f F;
  pixel_sampler : Sampler;
  camera_samples : list (F * F)
}.

(** The [for (int k = 0; k < n_samples; ++k)] loop of pixel [(i, j)];
    [image.addPixel] adds to the pixel and [image.setPixel] overwrites it. *)
Fixpoint sampleLoop (integrator : PhotonMapping F) (scene : Scene)
         (width height i j : Z) (n : nat) (run : PixelRun) : PixelRun :=
  match n with
  | O => run
  | S n' =>
      let '(x, sampler) := getNext1D (pixel_sampler run) in
      let u := (f2 * (of_int j + x) - of_int width) / of_int height in
      let '(y, sampler) := getNext1D sampler in
      let v := (f2 * (of_int i + y) - of_int height) / of_int height in
      let samples := camera_samples run ++ [(u, v)] in
      match sampleRay u v with
      | Some (ray, pdf) =>
          let '(L, sampler) := integrate integrator ray scene sampler in
          let radiance := vdivs L pdf in
          if vany fisnan radiance then
            sampleLoop integrator scene width height i j n'
              (mkPixelRun (pixel_value run) sampler samples)
          else if vany (fun c => c <? f0) radiance then
            sampleLoop integrator scene width height i j n'
              (mkPixelRun (pixel_value run) sampler samples)
          else
            sampleLoop integrator scene width height i j n'
              (mkPixelRun (vadd (pixel_value run) radiance) sampler samples)
      | None =>
          sampleLoop integrator scene width height i j n'
            (mkPixelRun Vec3f_zero sampler samples)
      end
  end.

(** The body of the pixel loops: a sampler seeded from the pixel, then the
    sample loop. *)
Definition renderPixel (integrator : PhotonMapping F) (scene : Scene)
           (width height n_samples i j : Z) : PixelRun :=
  sampleLoop integrator scene width height i j (Z.to_nat n_samples)
    (mkPixelRun Vec3f_zero (UniformSampler (pixelSeed width i j)) []).

(** The [omp parallel for collapse(2) schedule(dynamic, 1)] loops: the
    threads pick the pixels up in some order [work]; the body of a pixel
    reads neither the thread number nor anything another pixel writes. *)
Definition renderPhase (integrator : PhotonMapping F) (scene : Scene)
           (width height n_samples : Z) (work : list (Z * Z))
  : list ((Z * Z) * PixelRun) :=
  map (fun p : Z * Z =>
         (p, renderPixel integrator scene width height n_samples
               (fst p) (snd p)))
      work.

End Integrator.

(** ** Command-line arguments *)

Definition isspace (c : ascii) : bool :=
  let n := nat_of_ascii c in
  (Nat.eqb n 32 || (Nat.leb 9 n && Nat.leb n 13))%bool.

Definition digit_of (c : ascii) : option Z :=
  let n := nat_of_ascii c in
  if (Nat.leb 48 n && Nat.leb n 57)%bool then Some (Z.of_nat (n - 48))
  else None.

Fixpoint skip_space (s : string) : string :=
  match s with
  | String c s' => if isspace c then skip_space s' else s
  | EmptyString => s
  end.

Fixpoint atoi_digits (s : string) (acc : Z) : Z :=
  match s with
  | String c s' =>
      match digit_of c with
      | Some d => atoi_digits s' (10 * acc + d)
      | None => acc
      end
  | EmptyString => acc
  end.

(** The C library's [atoi]: leading white space, an optional sign, then
    decimal digits up to the first other character; no digits give 0.  A
    value outside [int] is undefined behaviour and is not wrapped here. *)
Definition atoi (s : string) : Z :=
  match skip_space s with
  | String "-"%char s' => - atoi_digits s' 0
  | String "+"%char s' => atoi_digits s' 0
  | s' => atoi_digits s' 0
  end.

Section Main.
Context {F : Type} {FA : FloatArith F} {SM : SceneModel F}.

(** The nine values that [main] reads from [c[1]] to [c[9]]. *)
Record Args := mkArgs {
  width : Z;
  height : Z;
  n_samples : Z;
  n_photons : Z;
  n_estimation_global : Z;
  n_photons_caustics_multiplier : F;
  n_estimation_caustics : Z;
  final_gathering_depth : Z;
  max_depth : Z
}.

(** [const float n_photons_caustics_multiplier = atoi(c[6]);] converts the
    [int] that [atoi] returns to [float]. *)
Definition parseArgs (c : list string) : Args :=
  let arg (n : nat) := nth n c EmptyString in
  mkArgs (atoi (arg 1%nat)) (atoi (arg 2%nat)) (atoi (arg 3%nat))
    (atoi (arg 4%nat)) (atoi (arg 5%nat)) (of_int (atoi (arg 6%nat)))
    (atoi (arg 7%nat)) (atoi (arg 8%nat)) (atoi (arg 9%nat)).

(** [PhotonMapping integrator(n_photons, n_estimation_global,
    n_photons_caustics_multiplier, n_estimation_caustics,
    final_gathering_depth, max_depth);] *)
Definition main_integrator (a : Args) : PhotonMapping F :=
  PhotonMapping_new (n_photons a) (n_estimation_global a)
    (n_photons_caustics_multiplier a) (n_estimation_caustics a)
    (final_gathering_depth a) (max_depth a).
End Main.

(** ** A small concrete world

    A binary32 implementation of the collaborators, on which the integrator
    runs by computation: a lamp at height 2 that shines downwards, a floor
    at height 0, optionally a pane of glass at height 1, a linear
    congruential sampler and a k-nearest-neighbour search by sorting. *)

Module Example.
Import Binary32.

Definition V (x y z : float32) : Vec3f float32 := mkVec3f x y z.
Definition half : float32 := dyadic 1 1.
Definition quarter : float32 := dyadic 1 2.
Definition up : Vec3f float32 := V (of_Z 0) (of_Z 1) (of_Z 0).
Definition down : Vec3f float32 := V (of_Z 0) (of_Z (-1)) (of_Z 0).

Record ToySampler := mkToySampler { toy_seed : Z; toy_state : Z }.

Definition toy_next (s : ToySampler) : float32 * ToySampler :=
  let x := ((toy_state s * 1103515245 + 12345) mod 2 ^ 31)%Z in
  (dyadic (x / 2 ^ 7) 24, mkToySampler (toy_seed s) x).

Inductive ToyPrimitive := Lamp | Wall | Glass.

Definition toy_bxdf_type (p : ToyPrimitive) : BxDFType :=
  match p with Glass => SPECULAR | _ => DIFFUSE end.

Definition toy_evaluate (p : ToyPrimitive) (wo wi : Vec3f float32)
           (s : SurfaceInfo float32) (t : TransportDirection)
  : Vec3f float32 :=
  match p with
  | Wall => Vec3f_fill quarter
  | _ => Vec3f_zero
  end.

(** The wall scatters along a direction drawn from two variates; the glass
    lets the ray through and draws one variate. *)
Definition toy_sample (p : ToyPrimitive) (wo : Vec3f float32)
           (s : SurfaceInfo float32) (t : TransportDirection)
           (r : ToySampler)
  : (Vec3f float32 * Vec3f float32 * float32) * ToySampler :=
  match p with
  | Glass =>
      let '(_, r) := toy_next r in
      ((Vec3f_fill (of_Z 1), vneg wo, of_Z 1), r)
  | _ =>
      let '(a, r) := toy_next r in
      let '(b, r) := toy_next r in
      ((Vec3f_fill quarter,
        V (fsub a half) (of_Z 1) (fsub b half), of_Z 1), r)
  end.

(** The glass both transmits and reflects, each with weight one half. *)
Definition toy_sample_all (p : ToyPrimitive) (wo : Vec3f float32)
           (s : SurfaceInfo float32) (t : TransportDirection)
  : list (Vec3f float32 * Vec3f float32) :=
  match p with
  | Glass => [(vneg wo, Vec3f_fill half);
              (V (fneg (vx wo)) (vy wo) (fneg (vz wo)), Vec3f_fill half)]
  | _ => []
  end.

Definition lamp_surface : SurfaceInfo float32 :=
  mkSurfaceInfo (V (of_Z 0) (of_Z 2) (of_Z 0)) down down.

Definition toy_sample_direction (l : unit) (s : SurfaceInfo float32)
           (r : ToySampler) : (Vec3f float32 * float32) * ToySampler :=
  let '(a, r) := toy_next r in
  let '(b, r) := toy_next r in
  ((V (fsub a half) (of_Z (-1)) (fsub b half), of_Z 1), r).

Definition ToyScene : Type :=
  Ray float32 -> option (IntersectInfo float32 ToyPrimitive).

(** The point where a ray that goes down from above height [h] meets the
    horizontal plane at height [h]. *)
Definition hit_plane (h : float32) (p : ToyPrimitive) (r : Ray float32)
  : option (IntersectInfo float32 ToyPrimitive) :=
  let o := origin r in
  let d := direction r in
  if (fltb h (vy o) && fltb (vy d) (of_Z 0))%bool then
    let t := fdiv (fsub (vy o) h) (fneg (vy d)) in
    if fleb t (tmax r) then
      Some (mkIntersectInfo
              (mkSurfaceInfo (vadd o (vscale d t)) up up) p)
    else None
  else None.

Definition empty_scene : ToyScene := fun _ => None.
Definition floor_only : ToyScene := hit_plane (of_Z 0) Wall.
Definition lamp_floor : ToyScene := hit_plane (of_Z 0) Lamp.
Definition glass_over_floor : ToyScene :=
  fun r =>
    match hit_plane (of_Z 1) Glass r with
    | Some i => Some i
    | None => hit_plane (of_Z 0) Wall r
    end.

Definition dist2 (a b : Vec3f float32) : float32 :=
  let d := vsub a b in dot d d.

Fixpoint insert_by_dist (x : Z * float32) (l : list (Z * float32))
  : list (Z * float32) :=
  match l with
  | [] => [x]
  | y :: l' =>
      if fltb (snd x) (snd y) then x :: l else y :: insert_by_dist x l'
  end.

(** Modelled from the spec: [photon_map.h] is not among the sources; the
    contract of the k-nearest-neighbour query is "the k returned indices are
    the k points with smallest squared Euclidean distance to q", "the
    returned r² equals the maximum of those distances", fewer than k points
    return all of them, and an empty set returns no index and 0. *)
Definition toy_knn (m : PhotonMap float32) (q : Vec3f float32) (k : Z)
  : list Z * float32 :=
  let indexed :=
    combine (map Z.of_nat (seq 0 (List.length (photons m))))
            (map (fun p => dist2 (photon_position p) q) (photons m)) in
  let nearest :=
    firstn (Z.to_nat k) (fold_right insert_by_dist [] indexed) in
  (map fst nearest, last (map snd nearest) (of_Z 0)).

#[global] Instance toy_world : SceneModel float32 := {|
  PI := dyadic 13176795 22;
  RAY_EPS := dyadic 1 10;
  RAY_TMAX := of_Z 10000;
  Sampler := ToySampler;
  UniformSampler := fun seed => mkToySampler seed seed;
  getNext1D := toy_next;
  clone := fun s => s;
  getSeed := toy_seed;
  setSeed := fun _ seed => mkToySampler seed seed;
  Primitive := ToyPrimitive;
  hasAreaLight := fun p => match p with Lamp => true | _ => false end;
  Primitive_Le := fun _ _ _ => Vec3f_fill (of_Z 8);
  getBxDFType := toy_bxdf_type;
  evaluateBxDF := toy_evaluate;
  sampleBxDF := toy_sample;
  sampleAllBxDF := toy_sample_all;
  Light := unit;
  samplePoint := fun _ r => ((lamp_surface, of_Z 1), r);
  sampleDirection := toy_sample_direction;
  Light_Le := fun _ _ _ => Vec3f_fill (of_Z 8);
  Scene := ToyScene;
  intersect := fun scene r => scene r;
  sampleLight := fun _ r => ((tt, of_Z 1), r);
  sampleRay := fun u v =>
    Some (mkRay (V (of_Z 0) (of_Z 1) (of_Z 6)) (V u v (of_Z (-1)))
            (of_Z 10000), of_Z 1);
  queryKNearestPhotons := toy_knn
|}.

Definition first_sampler : ToySampler := mkToySampler 1 1.

(** An integrator whose two estimation counts differ: one photon for the
    global map, two for the caustics map. *)
Definition two_counts : PhotonMapping float32 :=
  PhotonMapping_new 3 1 (of_Z 1) 2 1 4.

Definition built_two_counts : PhotonMapping float32 :=
  build two_counts glass_over_floor first_sampler 1
    (fun _ => O) (fun _ => O).

Definition floor_hit : IntersectInfo float32 ToyPrimitive :=
  mkIntersectInfo (mkSurfaceInfo (V (of_Z 0) (of_Z 0) (of_Z 0)) up up) Wall.
(** Rays and path states over these scenes: a ray that falls from the lamp
    onto the glass, one that falls from the glass onto the floor, and the
    states of a photon that travels along them. *)
Definition falling_ray : Ray float32 :=
  mkRay (V (of_Z 0) (of_Z 2) (of_Z 0)) down (of_Z 10000).
Definition low_ray : Ray float32 :=
  mkRay (V (of_Z 0) (of_Z 1) (of_Z 0)) down (of_Z 10000).

Definition glass_hit : IntersectInfo float32 ToyPrimitive :=
  mkIntersectInfo (mkSurfaceInfo (V (of_Z 0) (of_Z 1) (of_Z 0)) up up) Glass.

Definition falling : PathState :=
  mkPathState (Vec3f_fill half) falling_ray false first_sampler.
Definition falling_bright : PathState :=
  mkPathState (Vec3f_fill (of_Z 1)) falling_ray false first_sampler.
Definition falling_dim : PathState :=
  mkPathState (Vec3f_fill (dyadic 1 20)) falling_ray false first_sampler.
Definition low_after_glass : PathState :=
  mkPathState (Vec3f_fill half) low_ray true first_sampler.
Definition low_from_lamp : PathState :=
  mkPathState (Vec3f_fill half) low_ray false first_sampler.

(** The state in which the bounce on the glass leaves the falling photon. *)
Definition through_glass : PathState :=
  match causticsBounce glass_over_floor 0 falling with
  | Continue _ next => next
  | Break _ _ => falling
  end.
(** A horizontal plane met from below by a ray that goes up, and two scenes
    with such a plane above the floor: a shelf half-way to the lamp, and a
    roof at the height of the lamp itself. *)
Definition hit_from_below (h : float32) (p : ToyPrimitive) (r : Ray float32)
  : option (IntersectInfo float32 ToyPrimitive) :=
  let o := origin r in
  let d := direction r in
  if (fltb (vy o) h && fltb (of_Z 0) (vy d))%bool then
    let t := fdiv (fsub h (vy o)) (vy d) in
    if fleb t (tmax r) then
      Some (mkIntersectInfo
              (mkSurfaceInfo (vadd o (vscale d t)) down down) p)
    else None
  else None.

Definition shelf_over_floor : ToyScene :=
  fun r =>
    match hit_from_below (of_Z 1) Wall r with
    | Some i => Some i
    | None => hit_plane (of_Z 0) Wall r
    end.

Definition roof_over_floor : ToyScene :=
  fun r =>
    match hit_from_below (of_Z 2) Wall r with
    | Some i => Some i
    | None => hit_plane (of_Z 0) Wall r
    end.
(** A command line for a 2 x 2 image with one sample per pixel, three
    photons, and depth bounds 1 and 4. *)
Definition small_argv : list string :=
  ["pm"; "2"; "2"; "1"; "3"; "1"; "1"; "2"; "1"; "4"]%string.

Definition small_args : Args (F := float32) := parseArgs small_argv.
Definition lamp_hit : IntersectInfo float32 ToyPrimitive :=
  mkIntersectInfo (mkSurfaceInfo (V (of_Z 0) (of_Z 0) (of_Z 0)) up up) Lamp.
(** More inputs: the first photons of the two maps built above, an
    integrator with [maxDepth = 1], one with [finalGatheringDepth = 0] and a
    twin that differs on the caustics side only, a scene that is a single
    pane of glass, the ray and throughput emitted over the bare floor with
    the hit they lead to, a path state with no throughput left, and an
    integrator whose maps hold one photon at the origin. *)
Definition no_photon : Photon float32 :=
  mkPhoton Vec3f_zero Vec3f_zero Vec3f_zero.
Definition first_global_photon : Photon float32 :=
  nth 0 (photons (globalPhotonMap built_two_counts)) no_photon.
Definition first_caustics_photon : Photon float32 :=
  nth 0 (photons (causticsPhotonMap built_two_counts)) no_photon.

Definition one_bounce : PhotonMapping float32 :=
  PhotonMapping_new 3 1 (of_Z 1) 2 1 1.

Definition origin_photon : Photon float32 :=
  mkPhoton (Vec3f_fill (of_Z 1)) (V (of_Z 0) (of_Z 0) (of_Z 0)) up.

Definition no_gathering : PhotonMapping float32 :=
  PhotonMapping_new 3 1 (of_Z 1) 2 0 4.
Definition no_gathering_twin : PhotonMapping float32 :=
  mkPhotonMapping 3 1 99 7 0 4 (mkPhotonMap []) (mkPhotonMap [origin_photon]).

Definition glass_only : ToyScene := hit_plane (of_Z 1) Glass.

Definition emitted : (Ray float32 * Vec3f float32) * ToySampler :=
  sampleRayFromLight floor_only first_sampler.
Definition emitted_hit : IntersectInfo float32 ToyPrimitive :=
  match floor_only (fst (fst emitted)) with
  | Some i => i
  | None => floor_hit
  end.

Definition falling_dead : PathState :=
  mkPathState Vec3f_zero falling_ray false first_sampler.

Definition coincident : PhotonMapping float32 :=
  mkPhotonMapping 1 1 1 1 1 4 (mkPhotonMap [origin_photon])
    (mkPhotonMap [origin_photon]).

Definition half_argv : list string :=
  ["pm"; "64"; "64"; "4"; "1000"; "100"; "0.5"; "50"; "1"; "8"]%string.
End Example.

(** ** The estimator and the roulette in the words of the specification

    These definitions follow the description of the design, not the code;
    the theorems below compare the code with them. *)

Section Described.
Context {F : Type} {FA : FloatArith F} {SM : SceneModel F}.
Local Open Scope float_scope.

(** The accumulator of the density estimator,
    [Σ f(wo, photon.wi, hit, FROM_CAMERA) · photon.power] over the returned
    indices, added in the order of the list. *)
Definition photonSum (store : PhotonMap F) (wo : Vec3f F)
           (hit : IntersectInfo F Primitive) (indices : list Z) : Vec3f F :=
  fold_left
    (fun acc i =>
       vadd acc
         (vmul (evaluateBxDF (hitPrimitive hit) wo
                  (photon_wi (getIthPhoton store i)) (surfaceInfo hit)
                  FROM_CAMERA)
               (photon_throughput (getIthPhoton store i))))
    indices Vec3f_zero.

(** The shared primitive [ρ(wo, hit, store, N_pass)] with its count [k]:
    query, accumulate, divide by [N_pass · π · r²] when a photon was
    returned, and 0 when none was. *)
Definition densityEstimate (store : PhotonMap F) (k N_pass : Z)
           (wo : Vec3f F) (hit : IntersectInfo F Primitive) : Vec3f F :=
  let '(indices, r2) :=
    queryKNearestPhotons store (position (surfaceInfo hit)) k in
  match indices with
  | [] => Vec3f_zero
  | _ :: _ => vdivs (photonSum store wo hit indices) (of_int N_pass * PI * r2)
  end.

(** Step 5 of the bounce loop: at [k > 0] draw a variate, stop when it is
    at least [q = min(max(throughput channels), 1)], otherwise divide the
    throughput by [q]; at [k = 0] leave throughput and sampler alone. *)
Definition russianRoulette (k : Z) (throughput : Vec3f F) (sampler : Sampler)
  : option (Vec3f F) * Sampler :=
  if (0 <? k)%Z then
    let q := fmin (vmax3 throughput) f1 in
    let '(u, sampler) := getNext1D sampler in
    if fleb q u then (None, sampler)
    else (Some (vdivs throughput q), sampler)
  else (Some throughput, sampler).

(** Steps 6 to 8 of the bounce loop: sample the material, multiply the
    throughput by [f · cosTerm(FROM_LIGHT) / pdf_dir], leave along the new
    direction. *)
Definition scatterPhoton (info : IntersectInfo F Primitive) (ray : Ray F)
           (throughput : Vec3f F) (sampler : Sampler)
  : Vec3f F * Ray F * Sampler :=
  let '((f, dir, pdf_dir), sampler) :=
    sampleBxDF (hitPrimitive info) (vneg (direction ray)) (surfaceInfo info)
      FROM_LIGHT sampler in
  (vmul throughput
     (vdivs
        (vscale f
           (cosTerm (vneg (direction ray)) dir (surfaceInfo info) FROM_LIGHT))
        pdf_dir),
   Ray_new (position (surfaceInfo info)) dir, sampler).

(** The deposit predicate of the global pass. *)
Definition globalDeposit (info : IntersectInfo F Primitive) (st : PathState)
  : list (Photon F) :=
  match getBxDFType (hitPrimitive info) with
  | DIFFUSE =>
      [mkPhoton (throughput st) (position (surfaceInfo info))
         (vneg (direction (ray st)))]
  | SPECULAR => []
  end.

(** A throughput that passes the two checks at the head of the loop body. *)
Definition throughputUsable (t : Vec3f F) : bool :=
  negb (vany fisnan t) && negb (vany (fun c => c <? f0) t).

(** Every surface of the scene is diffuse. *)
Definition onlyDiffuse (scene : Scene) : Prop :=
  forall (r : Ray F) (info : IntersectInfo F Primitive),
    intersect scene r = Some info ->
    getBxDFType (hitPrimitive info) = DIFFUSE.
End Described.

(** ** Predicates on photons, scenes, integrators and binary32 values *)

Section Predicates.
Context {F : Type} {FA : FloatArith F} {SM : SceneModel F}.

(** The photons that one iteration of the bounce loop appends. *)
Definition bounceDeposit (b : Bounce) : list (Photon F) :=
  match b with
  | Break deposit _ => deposit
  | Continue deposit _ => deposit
  end.

(** The photon records a hit of some ray on a diffuse surface of the scene:
    its position is the hit position, its [wi] the reversed ray direction,
    and its throughput passed the NaN and sign checks. *)
Definition depositedAt (scene : Scene) (p : Photon F) : Prop :=
  exists (r : Ray F) (info : IntersectInfo F Primitive),
    intersect scene r = Some info /\
    getBxDFType (hitPrimitive info) = DIFFUSE /\
    photon_position p = position (surfaceInfo info) /\
    photon_wi p = vneg (direction r) /\
    throughputUsable (photon_throughput p) = true.

(** One bounce of a caustics path on a specular surface: the ray of [st]
    hits a specular surface, and iteration [k] of the bounce loop reaches the
    end of its body in state [next] without appending a photon. *)
Definition specularBounce (scene : Scene) (k : Z) (st next : PathState)
  : Prop :=
  exists mirror : IntersectInfo F Primitive,
    intersect scene (ray st) = Some mirror /\
    getBxDFType (hitPrimitive mirror) = SPECULAR /\
    causticsBounce scene k st = Continue [] next.

(** One or more consecutive specular bounces of the same path: from state
    [st] at iteration [k] to state [last] at iteration [k']. *)
Inductive specularChain (scene : Scene)
  : Z -> PathState -> Z -> PathState -> Prop :=
| chain_first (k : Z) (st next : PathState) :
    specularBounce scene k st next ->
    specularChain scene k st (k + 1) next
| chain_next (k : Z) (st : PathState) (k' : Z) (mid next : PathState) :
    specularChain scene k st k' mid ->
    specularBounce scene k' mid next ->
    specularChain scene k st (k' + 1) next.

(** The photon is the end of a light path L S+ D of the caustics pass: a
    ray and a throughput sampled on a light by [sampleRayFromLight], then,
    from iteration 0 of the bounce loop, one or more bounces on specular
    surfaces and nothing else, then a hit on a diffuse surface, where the
    photon takes the throughput and the reversed direction that the path
    has at that moment. *)
Definition causticOfLight (scene : Scene) (p : Photon F) : Prop :=
  exists (s s' : Sampler) (r : Ray F) (t : Vec3f F)
         (k : Z) (last : PathState) (wall : IntersectInfo F Primitive),
    sampleRayFromLight scene s = ((r, t), s') /\
    specularChain scene 0 (mkPathState t r false s') k last /\
    intersect scene (ray last) = Some wall /\
    getBxDFType (hitPrimitive wall) = DIFFUSE /\
    p = mkPhoton (throughput last) (position (surfaceInfo wall))
          (vneg (direction (ray last))).

(** No surface of the scene is diffuse. *)
Definition noDiffuse (scene : Scene) : Prop :=
  forall (r : Ray F) (info : IntersectInfo F Primitive),
    intersect scene r = Some info ->
    getBxDFType (hitPrimitive info) <> DIFFUSE.

(** Two integrators that agree on everything but the caustics side: the
    caustics map, [nPhotonsCaustics] and [nEstimationCaustics] are free. *)
Definition sameButCaustics (a b : PhotonMapping F) : Prop :=
  nPhotonsGlobal a = nPhotonsGlobal b /\
  nEstimationGlobal a = nEstimationGlobal b /\
  finalGatheringDepth a = finalGatheringDepth b /\
  maxDepth a = maxDepth b /\
  globalPhotonMap a = globalPhotonMap b.
End Predicates.

(** A caustics path of the concrete world, followed by hand: the ray and
    throughput sampled on the lamp over the glass, the hit on the glass, the
    state after the bounce on it, and the hit on the floor below. *)
Module CausticExample.
Import Binary32 Example.

Definition lit : (Ray float32 * Vec3f float32) * ToySampler :=
  sampleRayFromLight glass_over_floor first_sampler.
Definition lit_ray : Ray float32 := fst (fst lit).
Definition lit_power : Vec3f float32 := snd (fst lit).

Definition lit_mirror : IntersectInfo float32 ToyPrimitive :=
  match glass_over_floor lit_ray with
  | Some i => i
  | None => glass_hit
  end.

Definition lit_scattered : Vec3f float32 * Ray float32 * ToySampler :=
  scatterPhoton lit_mirror lit_ray lit_power (snd lit).

Definition lit_wall : IntersectInfo float32 ToyPrimitive :=
  match glass_over_floor (snd (fst lit_scattered)) with
  | Some i => i
  | None => floor_hit
  end.

Definition lit_photon : Photon float32 :=
  mkPhoton (fst (fst lit_scattered)) (position (surfaceInfo lit_wall))
    (vneg (direction (snd (fst lit_scattered)))).
End CausticExample.

(** A binary32 value whose sign bit is clear, or a NaN. *)
Definition signless (x : spec_float) : bool :=
  match x with
  | S754_zero s | S754_infinity s | S754_finite s _ _ => negb s
  | S754_nan => true
  end.

(** A zero of either sign. *)
Definition is_zero (x : spec_float) : bool :=
  match x with S754_zero _ => true | _ => false end.

(** The sign bit of a binary32 value (clear for a NaN). *)
Definition signbit (x : spec_float) : bool :=
  match x with
  | S754_zero s | S754_infinity s | S754_finite s _ _ => s
  | S754_nan => false
  end.

(** An infinity or a NaN. *)
Definition nonfinite (x : spec_float) : bool :=
  match x with S754_infinity _ | S754_nan => true | _ => false end.

(** * Theorems *)

Section CosTermFacts.
Context {F : Type} {FA : FloatArith F}.
Local Open Scope float_scope.

(** C3. [cosTerm] returns 0 whenever [(wi·n_geom)·(wi·n_shading) <= 0] or
    [(wo·n_geom)·(wo·n_shading) <= 0]; otherwise it returns
    [|wi · n_shading|] for [FROM_CAMERA] and
    [|wo · n_shading| · |wi · n_geom| / |wo · n_geom|] for [FROM_LIGHT]. *)
Theorem cosTerm_cases (wo wi : Vec3f F) (s : SurfaceInfo F) :
  let wi_ns := dot wi (shadingNormal s) in
  let wi_ng := dot wi (geometricNormal s) in
  let wo_ns := dot wo (shadingNormal s) in
  let wo_ng := dot wo (geometricNormal s) in
  (forall td,
      (wi_ng * wi_ns <=? f0) = true \/ (wo_ng * wo_ns <=? f0) = true ->
      cosTerm wo wi s td = f0) /\
  ((wi_ng * wi_ns <=? f0) = false -> (wo_ng * wo_ns <=? f0) = false ->
   cosTerm wo wi s FROM_CAMERA = fabs wi_ns /\
   cosTerm wo wi s FROM_LIGHT = fabs wo_ns * fabs wi_ng / fabs wo_ng).
Proof.
  cbv zeta. split.
  - intros td [Hi | Ho]; unfold cosTerm; rewrite ?Hi, ?Ho.
    + reflexivity.
    + now rewrite orb_true_r.
  - intros Hi Ho. unfold cosTerm. rewrite Hi, Ho. cbn [orb]. now split.
Qed.
End CosTermFacts.

Lemma cosTerm_cases_witness :
  cosTerm Example.up Example.up
    (mkSurfaceInfo Example.up Example.up Example.down) FROM_LIGHT = f0 /\
  cosTerm Example.up Example.up
    (mkSurfaceInfo Example.up Example.up Example.up) FROM_CAMERA
  = fabs (dot Example.up Example.up).
Proof.
  split.
  - apply (proj1 (cosTerm_cases Example.up Example.up
                    (mkSurfaceInfo Example.up Example.up Example.down))).
    left. vm_compute. reflexivity.
  - apply (proj2 (cosTerm_cases Example.up Example.up
                    (mkSurfaceInfo Example.up Example.up Example.up)));
      vm_compute; reflexivity.
Defined.

Section DensityEstimation.
Context {F : Type} {FA : FloatArith F} {SM : SceneModel F}.
Local Open Scope float_scope.

Lemma densityEstimate_unfold (store : PhotonMap F) (k N_pass : Z)
      (wo : Vec3f F) (hit : IntersectInfo F Primitive) :
  densityEstimate store k N_pass wo hit =
  let q := queryKNearestPhotons store (position (surfaceInfo hit)) k in
  if (0 <? Z.of_nat (List.length (fst q)))%Z
  then vdivs (photonSum store wo hit (fst q)) (of_int N_pass * PI * snd q)
  else photonSum store wo hit (fst q).
Proof.
  unfold densityEstimate. cbv zeta.
  destruct (queryKNearestPhotons store _ k) as [[|i l] r2]; reflexivity.
Qed.

(** C4. Both estimators accumulate [Σ f(wo, photon.wi, hit, FROM_CAMERA) ·
    photon.throughput] over the indices that the query returns; with at
    least one index the sum is divided by [N_pass · π · r²], where [N_pass]
    is the photon count of the pass that filled the store ([nPhotonsGlobal],
    [nPhotonsCaustics]) and not the number of indices; with no index the
    result is exactly 0. *)
Theorem estimators_are_density_estimates (this : PhotonMapping F)
        (wo : Vec3f F) (info : IntersectInfo F Primitive) :
  computeRadianceWithPhotonMap this wo info
  = densityEstimate (globalPhotonMap this) (nEstimationGlobal this)
      (nPhotonsGlobal this) wo info /\
  computeCausticsWithPhotonMap this wo info
  = densityEstimate (causticsPhotonMap this) (nEstimationGlobal this)
      (nPhotonsCaustics this) wo info.
Proof.
  rewrite !densityEstimate_unfold. cbv zeta.
  unfold computeRadianceWithPhotonMap, computeCausticsWithPhotonMap.
  split.
  - destruct (queryKNearestPhotons (globalPhotonMap this) _ _) as [idx r2].
    reflexivity.
  - destruct (queryKNearestPhotons (causticsPhotonMap this) _ _) as [idx r2].
    reflexivity.
Qed.

(** The field [nEstimationCaustics] is never read by the caustics
    estimator. *)
Lemma caustics_estimate_ignores_nEstimationCaustics
      (a b c d e f : Z) (g h : PhotonMap F) (d' : Z)
      (wo : Vec3f F) (info : IntersectInfo F Primitive) :
  computeCausticsWithPhotonMap (mkPhotonMapping a b c d e f g h) wo info
  = computeCausticsWithPhotonMap (mkPhotonMapping a b c d' e f g h) wo info.
Proof. reflexivity. Qed.
End DensityEstimation.

(** C1 (the code departs from it). On an integrator whose counts are
    [nEstimationGlobal = 1] and [nEstimationCaustics = 2], built over the
    glass-over-floor scene, the caustics estimate at the floor is the density
    estimate with [k = 1 = nEstimationGlobal] and differs from the one with
    [k = 2 = nEstimationCaustics]; the divisor does use
    [nPhotonsCaustics]. *)
Theorem caustics_estimate_queries_with_global_count :
  let pm := Example.built_two_counts in
  nEstimationGlobal pm = 1 /\ nEstimationCaustics pm = 2 /\
  computeCausticsWithPhotonMap pm Example.up Example.floor_hit
  = densityEstimate (causticsPhotonMap pm) 1 (nPhotonsCaustics pm)
      Example.up Example.floor_hit /\
  computeCausticsWithPhotonMap pm Example.up Example.floor_hit
  <> densityEstimate (causticsPhotonMap pm) (nEstimationCaustics pm)
       (nPhotonsCaustics pm) Example.up Example.floor_hit.
Proof.
  cbv zeta. repeat split; try (vm_compute; reflexivity).
  vm_compute. discriminate.
Qed.

(** C2 (the code departs from it). The sixth argument goes through [atoi]:
    the text [0.5] parses to the integer 0, the multiplier is [0.0f] and no
    caustics photon is traced, where half of 1000 would be 500. *)
Theorem fractional_multiplier_is_truncated :
  let argv := ["pm"; "64"; "64"; "4"; "1000"; "100"; "0.5"; "50"; "1"; "8"]
              %string in
  let args := parseArgs (F := Binary32.float32) argv in
  atoi "0.5" = 0 /\
  n_photons args = 1000 /\
  n_photons_caustics_multiplier args = of_int 0 /\
  nPhotonsCaustics (main_integrator args) = 0 /\
  to_int (fmul (of_int (n_photons args)) Example.half) = 500.
Proof. cbv zeta. repeat split; vm_compute; reflexivity. Qed.

(** Whatever the text of the sixth argument, the multiplier is the
    conversion of an integer. *)
Lemma multiplier_is_integral {F : Type} {FA : FloatArith F}
      (c : list string) :
  n_photons_caustics_multiplier (parseArgs c)
  = of_int (atoi (nth 6 c EmptyString)).
Proof. reflexivity. Qed.

Section PhotonPasses.
Context {F : Type} {FA : FloatArith F} {SM : SceneModel F}.
Local Open Scope float_scope.

Lemma throughputUsable_checks (t : Vec3f F) :
  throughputUsable t = true ->
  vany fisnan t = false /\ vany (fun c => c <? f0) t = false.
Proof.
  unfold throughputUsable. intros Hu.
  apply andb_prop in Hu as [Hn Hm].
  now rewrite negb_true_iff in Hn, Hm.
Qed.

Lemma russianRoulette_first_bounce (k : Z) (t : Vec3f F) (s : Sampler) :
  (k <= 0)%Z -> russianRoulette k t s = (Some t, s).
Proof.
  intros Hk. unfold russianRoulette.
  destruct (Z.ltb_spec 0 k); [lia | reflexivity].
Qed.

Lemma russianRoulette_later_bounce (k : Z) (t : Vec3f F) (s : Sampler) :
  (0 < k)%Z ->
  russianRoulette k t s =
  let q := fmin (fmax (vx t) (fmax (vy t) (vz t))) f1 in
  if fgeb (fst (getNext1D s)) q then (None, snd (getNext1D s))
  else (Some (vdivs t q), snd (getNext1D s)).
Proof.
  intros Hk. unfold russianRoulette, vmax3, fgeb. cbv zeta.
  destruct (Z.ltb_spec 0 k); [|lia].
  destruct (getNext1D s) as [u s']. reflexivity.
Qed.

Lemma globalBounce_described (scene : Scene) (k : Z) (st : PathState)
      (info : IntersectInfo F Primitive) :
  throughputUsable (throughput st) = true ->
  intersect scene (ray st) = Some info ->
  globalBounce scene k st =
  match russianRoulette k (throughput st) (path_sampler st) with
  | (None, s) => Break (globalDeposit info st) s
  | (Some t, s) =>
      let '(t', r', s') := scatterPhoton info (ray st) t s in
      Continue (globalDeposit info st) (mkPathState t' r' (prev_specular st) s')
  end.
Proof.
  intros Hu Hhit. apply throughputUsable_checks in Hu as [Hn Hm].
  unfold globalBounce. cbv zeta. rewrite Hn, Hm, Hhit.
  unfold russianRoulette, scatterPhoton, globalDeposit, vmax3, fgeb.
  rewrite Z.gtb_ltb. destruct (0 <? k)%Z.
  - destruct (getNext1D (path_sampler st)) as [u s1].
    destruct (fleb _ u).
    + destruct (getBxDFType (hitPrimitive info)); reflexivity.
    + destruct (sampleBxDF _ _ _ _ s1) as [[[f dir] pdf] s2].
      destruct (getBxDFType (hitPrimitive info)); reflexivity.
  - destruct (sampleBxDF _ _ _ _ (path_sampler st)) as [[[f dir] pdf] s2].
    destruct (getBxDFType (hitPrimitive info)); reflexivity.
Qed.

Lemma causticsBounce_described (scene : Scene) (k : Z) (st : PathState)
      (info : IntersectInfo F Primitive) :
  throughputUsable (throughput st) = true ->
  intersect scene (ray st) = Some info ->
  getBxDFType (hitPrimitive info) <> DIFFUSE ->
  causticsBounce scene k st =
  match russianRoulette k (throughput st) (path_sampler st) with
  | (None, s) => Break [] s
  | (Some t, s) =>
      let '(t', r', s') := scatterPhoton info (ray st) t s in
      Continue []
        (mkPathState t' r'
           (BxDFType_eqb (getBxDFType (hitPrimitive info)) SPECULAR) s')
  end.
Proof.
  intros Hu Hhit Hnd. apply throughputUsable_checks in Hu as [Hn Hm].
  unfold causticsBounce. cbv zeta. rewrite Hn, Hm, Hhit.
  destruct (getBxDFType (hitPrimitive info)) eqn:Ht; [congruence|].
  cbn [BxDFType_eqb]. rewrite !andb_false_r.
  unfold russianRoulette, scatterPhoton, vmax3, fgeb.
  rewrite Z.gtb_ltb. destruct (0 <? k)%Z.
  - destruct (getNext1D (path_sampler st)) as [u s1].
    destruct (fleb _ u); [reflexivity|].
    destruct (sampleBxDF _ _ _ _ s1) as [[[f dir] pdf] s2]. reflexivity.
  - destruct (sampleBxDF _ _ _ _ (path_sampler st)) as [[[f dir] pdf] s2].
    reflexivity.
Qed.

(** C6. In both passes the roulette runs after the deposit step and only
    at [k > 0]: with [q = min(max(throughput channels), 1)] and [u] the next
    variate of the thread's sampler, the path stops when [u >= q] and
    otherwise goes on with the throughput divided by [q]; at [k = 0] neither
    the throughput nor the sampler is touched before the material is
    sampled.  The photon deposited at this hit is kept in either case. *)
Theorem roulette_in_both_passes (scene : Scene) (k : Z) (st : PathState)
        (info : IntersectInfo F Primitive) :
  throughputUsable (throughput st) = true ->
  intersect scene (ray st) = Some info ->
  let t := throughput st in
  let s := path_sampler st in
  let q := fmin (fmax (vx t) (fmax (vy t) (vz t))) f1 in
  let u := fst (getNext1D s) in
  let s1 := snd (getNext1D s) in
  let go_on (deposit : list (Photon F)) (prev : bool)
            (t : Vec3f F) (s : Sampler) :=
    let '(t', r', s') := scatterPhoton info (ray st) t s in
    Continue deposit (mkPathState t' r' prev s') in
  let prev :=
    BxDFType_eqb (getBxDFType (hitPrimitive info)) SPECULAR in
  ((k <= 0)%Z ->
   globalBounce scene k st
   = go_on (globalDeposit info st) (prev_specular st) t s) /\
  ((0 < k)%Z -> fgeb u q = true ->
   globalBounce scene k st = Break (globalDeposit info st) s1) /\
  ((0 < k)%Z -> fgeb u q = false ->
   globalBounce scene k st
   = go_on (globalDeposit info st) (prev_specular st) (vdivs t q) s1) /\
  (getBxDFType (hitPrimitive info) <> DIFFUSE ->
   ((k <= 0)%Z -> causticsBounce scene k st = go_on [] prev t s) /\
   ((0 < k)%Z -> fgeb u q = true ->
    causticsBounce scene k st = Break [] s1) /\
   ((0 < k)%Z -> fgeb u q = false ->
    causticsBounce scene k st = go_on [] prev (vdivs t q) s1)).
Proof.
  intros Hu Hhit. cbv zeta.
  pose proof (globalBounce_described scene k st info Hu Hhit) as Hg.
  split; [|split; [|split]].
  - intros Hk. rewrite Hg, russianRoulette_first_bounce by exact Hk.
    reflexivity.
  - intros Hk Hq. rewrite Hg, russianRoulette_later_bounce by exact Hk.
    cbv zeta. rewrite Hq. reflexivity.
  - intros Hk Hq. rewrite Hg, russianRoulette_later_bounce by exact Hk.
    cbv zeta. rewrite Hq. reflexivity.
  - intros Hnd.
    pose proof (causticsBounce_described scene k st info Hu Hhit Hnd) as Hc.
    split; [|split].
    + intros Hk. rewrite Hc, russianRoulette_first_bounce by exact Hk.
      reflexivity.
    + intros Hk Hq. rewrite Hc, russianRoulette_later_bounce by exact Hk.
      cbv zeta. rewrite Hq. reflexivity.
    + intros Hk Hq. rewrite Hc, russianRoulette_later_bounce by exact Hk.
      cbv zeta. rewrite Hq. reflexivity.
Qed.

Lemma causticsBounce_deposits_at_most_one (scene : Scene) (k : Z)
      (st : PathState) :
  match causticsBounce scene k st with
  | Break deposit _ => (List.length deposit <= 1)%nat
  | Continue deposit _ => deposit = []
  end.
Proof.
  unfold causticsBounce. cbv zeta.
  destruct (vany fisnan (throughput st)); [cbn; lia|].
  destruct (vany _ (throughput st)); [cbn; lia|].
  destruct (intersect scene (ray st)) as [info|]; [|cbn; lia].
  destruct (negb (prev_specular st) && _); [cbn; lia|].
  destruct (prev_specular st && _); [cbn; lia|].
  destruct (k >? 0)%Z.
  - destruct (getNext1D (path_sampler st)) as [u s1].
    destruct (fgeb u _); [cbn; lia|].
    destruct (sampleBxDF _ _ _ _ s1) as [[[f dir] pdf] s2]. reflexivity.
  - destruct (sampleBxDF _ _ _ _ (path_sampler st)) as [[[f dir] pdf] s2].
    reflexivity.
Qed.

Lemma causticsPath_deposits_at_most_one (scene : Scene) (n : nat) :
  forall (k : Z) (st : PathState),
    (List.length (fst (bounceLoop (causticsBounce scene) n k st)) <= 1)%nat.
Proof.
  induction n as [|n IH]; intros k st; cbn [bounceLoop].
  - cbn. lia.
  - pose proof (causticsBounce_deposits_at_most_one scene k st) as Hb.
    destruct (causticsBounce scene k st) as [deposit s|deposit next].
    + exact Hb.
    + subst deposit. specialize (IH (k + 1)%Z next).
      destruct (bounceLoop (causticsBounce scene) n (k + 1)%Z next).
      exact IH.
Qed.

Lemma causticsBounce_updates_flag (scene : Scene) (k : Z)
      (st next : PathState) (deposit : list (Photon F)) :
  causticsBounce scene k st = Continue deposit next ->
  deposit = [] /\
  exists info,
    intersect scene (ray st) = Some info /\
    prev_specular next
    = BxDFType_eqb (getBxDFType (hitPrimitive info)) SPECULAR.
Proof.
  unfold causticsBounce. cbv zeta.
  destruct (vany fisnan (throughput st)); [discriminate|].
  destruct (vany _ (throughput st)); [discriminate|].
  destruct (intersect scene (ray st)) as [info|]; [|discriminate].
  destruct (negb (prev_specular st) && _); [discriminate|].
  destruct (prev_specular st && _); [discriminate|].
  destruct (k >? 0)%Z.
  - destruct (getNext1D (path_sampler st)) as [u s1].
    destruct (fgeb u _); [discriminate|].
    destruct (sampleBxDF _ _ _ _ s1) as [[[f dir] pdf] s2].
    intros [= <- <-]. split; [reflexivity|]. now exists info.
  - destruct (sampleBxDF _ _ _ _ (path_sampler st)) as [[[f dir] pdf] s2].
    intros [= <- <-]. split; [reflexivity|]. now exists info.
Qed.

Lemma causticsBounce_diffuse_first (scene : Scene) (k : Z) (st : PathState) :
  onlyDiffuse scene -> prev_specular st = false ->
  exists s, causticsBounce scene k st = Break [] s.
Proof.
  intros Hd Hp. unfold causticsBounce. cbv zeta.
  destruct (vany fisnan (throughput st)); [eauto|].
  destruct (vany _ (throughput st)); [eauto|].
  destruct (intersect scene (ray st)) as [info|] eqn:Hhit; [|eauto].
  rewrite (Hd _ _ Hhit), Hp. cbn. eauto.
Qed.

Lemma causticsPath_only_diffuse (scene : Scene) (this : PhotonMapping F)
      (s : Sampler) :
  onlyDiffuse scene -> fst (traceCausticsPhoton this scene s) = [].
Proof.
  intros Hd. unfold traceCausticsPhoton.
  destruct (sampleRayFromLight scene s) as [[r t] s'].
  destruct (Z.to_nat (maxDepth this)) as [|n]; [reflexivity|].
  cbn [bounceLoop].
  destruct (causticsBounce_diffuse_first scene 0%Z
              (mkPathState t r false s') Hd eq_refl) as [s'' ->].
  reflexivity.
Qed.

Lemma photonLoop_without_deposit
      (trace : Sampler -> list (Photon F) * Sampler) (thread_of : Z -> nat)
      (n : nat) :
  (forall s, fst (trace s) = []) ->
  forall (i : Z) (samplers : list Sampler) (acc : list (Photon F)),
    fst (photonLoop trace thread_of n i samplers acc) = acc.
Proof.
  intros Ht. induction n as [|n IH]; intros i samplers acc;
    cbn [photonLoop]; [reflexivity|].
  destruct (nth_error samplers (thread_of i)) as [s|]; [|apply IH].
  specialize (Ht s). destruct (trace s) as [deposit s'].
  cbn in Ht. subst deposit. rewrite IH. apply app_nil_r.
Qed.

Lemma causticsLoop_at_diffuse (scene : Scene) (n : nat) (k : Z)
      (st : PathState) (info : IntersectInfo F Primitive) :
  throughputUsable (throughput st) = true ->
  intersect scene (ray st) = Some info ->
  getBxDFType (hitPrimitive info) = DIFFUSE ->
  bounceLoop (causticsBounce scene) (S n) k st
  = (if prev_specular st
     then [mkPhoton (throughput st) (position (surfaceInfo info))
             (vneg (direction (ray st)))]
     else [],
     path_sampler st).
Proof.
  intros Hu Hhit Hd. apply throughputUsable_checks in Hu as [Hn Hm].
  cbn [bounceLoop]. unfold causticsBounce. cbv zeta.
  rewrite Hn, Hm, Hhit, Hd. destruct (prev_specular st); reflexivity.
Qed.

Lemma causticsLoop_continues (scene : Scene) (n : nat) (k : Z)
      (st next : PathState) (deposit : list (Photon F)) :
  causticsBounce scene k st = Continue deposit next ->
  bounceLoop (causticsBounce scene) (S n) k st
  = bounceLoop (causticsBounce scene) n (k + 1)%Z next.
Proof.
  intros Hc. destruct (causticsBounce_updates_flag _ _ _ _ _ Hc) as [-> _].
  cbn [bounceLoop]. rewrite Hc.
  destruct (bounceLoop (causticsBounce scene) n (k + 1)%Z next).
  reflexivity.
Qed.

Lemma causticsPath_light_diffuse (this : PhotonMapping F) (scene : Scene)
      (s s' : Sampler) (r : Ray F) (t : Vec3f F)
      (wall : IntersectInfo F Primitive) :
  sampleRayFromLight scene s = ((r, t), s') ->
  throughputUsable t = true ->
  intersect scene r = Some wall ->
  getBxDFType (hitPrimitive wall) = DIFFUSE ->
  (1 <= maxDepth this)%Z ->
  traceCausticsPhoton this scene s = ([], s').
Proof.
  intros Hs Hu Hhit Hd Hm. unfold traceCausticsPhoton. rewrite Hs.
  destruct (Z.to_nat (maxDepth this)) as [|n] eqn:En; [lia|].
  now rewrite (causticsLoop_at_diffuse scene n 0%Z
                 (mkPathState t r false s') wall Hu Hhit Hd).
Qed.

Lemma causticsPath_light_specular_diffuse (this : PhotonMapping F)
      (scene : Scene) (s s0 s1 : Sampler) (r r1 : Ray F) (t t1 : Vec3f F)
      (mirror wall : IntersectInfo F Primitive) :
  sampleRayFromLight scene s = ((r, t), s0) ->
  throughputUsable t = true ->
  intersect scene r = Some mirror ->
  getBxDFType (hitPrimitive mirror) = SPECULAR ->
  scatterPhoton mirror r t s0 = (t1, r1, s1) ->
  throughputUsable t1 = true ->
  intersect scene r1 = Some wall ->
  getBxDFType (hitPrimitive wall) = DIFFUSE ->
  (2 <= maxDepth this)%Z ->
  traceCausticsPhoton this scene s
  = ([mkPhoton t1 (position (surfaceInfo wall)) (vneg (direction r1))], s1).
Proof.
  intros Hs Hu Hhit Hspec Hsc Hu1 Hhit1 Hd Hm.
  unfold traceCausticsPhoton. rewrite Hs.
  destruct (Z.to_nat (maxDepth this)) as [|[|n]] eqn:En; [lia|lia|].
  assert (Hnd : getBxDFType (hitPrimitive mirror) <> DIFFUSE) by congruence.
  pose proof (causticsBounce_described scene 0%Z
                (mkPathState t r false s0) mirror Hu Hhit Hnd) as Hb.
  rewrite russianRoulette_first_bounce in Hb by lia.
  cbn [throughput ray path_sampler] in Hb. rewrite Hsc, Hspec in Hb.
  cbn [BxDFType_eqb] in Hb.
  rewrite (causticsLoop_continues scene (S n) 0%Z _ _ _ Hb).
  now rewrite (causticsLoop_at_diffuse scene n (0 + 1)%Z
                 (mkPathState t1 r1 true s1) wall Hu1 Hhit1 Hd).
Qed.

(** C5. A caustics path starts with [prev_specular = false].  At a diffuse
    hit the path ends: without a deposit when the flag is false, with
    exactly one photon (the current throughput, the hit position and the
    reversed ray direction) when it is true.  A bounce that does not end the
    path deposits nothing and sets the flag to [material == SPECULAR].  A
    whole path therefore deposits at most one photon, and over a scene
    whose surfaces are all diffuse the caustics store is empty after
    [build].

    The bounce loop does run these steps: from any iteration, a diffuse
    hit makes the rest of the path exactly that outcome (the photon when the
    flag is set, nothing otherwise) with the sampler left as it is; a bounce
    that does not end the path hands the next iteration its state; a path
    whose first hit is diffuse returns no photon; and a path that goes from
    the light to a specular surface and then to a diffuse one returns
    exactly one photon, recorded at the diffuse hit with the throughput
    scattered by the specular surface. *)
Theorem caustics_pass_deposit_rule (scene : Scene) :
  (forall this s,
      exists st,
        prev_specular st = false /\
        traceCausticsPhoton this scene s
        = bounceLoop (causticsBounce scene) (Z.to_nat (maxDepth this)) 0%Z st)
  /\
  (forall k st info,
      throughputUsable (throughput st) = true ->
      intersect scene (ray st) = Some info ->
      getBxDFType (hitPrimitive info) = DIFFUSE ->
      causticsBounce scene k st
      = Break (if prev_specular st
               then [mkPhoton (throughput st) (position (surfaceInfo info))
                       (vneg (direction (ray st)))]
               else [])
              (path_sampler st))
  /\
  (forall k st deposit next,
      causticsBounce scene k st = Continue deposit next ->
      deposit = [] /\
      exists info,
        intersect scene (ray st) = Some info /\
        prev_specular next
        = BxDFType_eqb (getBxDFType (hitPrimitive info)) SPECULAR)
  /\
  (forall this s,
      (List.length (fst (traceCausticsPhoton this scene s)) <= 1)%nat)
  /\
  (onlyDiffuse scene ->
   forall this sampler nthreads sched_global sched_caustics,
     photons (causticsPhotonMap this) = [] ->
     photons (causticsPhotonMap
                (build this scene sampler nthreads sched_global
                   sched_caustics)) = [])
  /\
  (forall n k st info,
      throughputUsable (throughput st) = true ->
      intersect scene (ray st) = Some info ->
      getBxDFType (hitPrimitive info) = DIFFUSE ->
      bounceLoop (causticsBounce scene) (S n) k st
      = (if prev_specular st
         then [mkPhoton (throughput st) (position (surfaceInfo info))
                 (vneg (direction (ray st)))]
         else [],
         path_sampler st))
  /\
  (forall n k st deposit next,
      causticsBounce scene k st = Continue deposit next ->
      bounceLoop (causticsBounce scene) (S n) k st
      = bounceLoop (causticsBounce scene) n (k + 1)%Z next)
  /\
  (forall this s s' r t wall,
      sampleRayFromLight scene s = ((r, t), s') ->
      throughputUsable t = true ->
      intersect scene r = Some wall ->
      getBxDFType (hitPrimitive wall) = DIFFUSE ->
      (1 <= maxDepth this)%Z ->
      traceCausticsPhoton this scene s = ([], s'))
  /\
  (forall this s s0 s1 r r1 t t1 mirror wall,
      sampleRayFromLight scene s = ((r, t), s0) ->
      throughputUsable t = true ->
      intersect scene r = Some mirror ->
      getBxDFType (hitPrimitive mirror) = SPECULAR ->
      scatterPhoton mirror r t s0 = (t1, r1, s1) ->
      throughputUsable t1 = true ->
      intersect scene r1 = Some wall ->
      getBxDFType (hitPrimitive wall) = DIFFUSE ->
      (2 <= maxDepth this)%Z ->
      traceCausticsPhoton this scene s
      = ([mkPhoton t1 (position (surfaceInfo wall)) (vneg (direction r1))],
         s1)).
Proof.
  refine (conj _ (conj _ (conj _ (conj _ (conj _
            (conj _ (conj _ (conj _ _)))))))).
  - intros this s. unfold traceCausticsPhoton.
    destruct (sampleRayFromLight scene s) as [[r t] s'].
    now exists (mkPathState t r false s').
  - intros k st info Hu Hhit Hd.
    apply throughputUsable_checks in Hu as [Hn Hm].
    unfold causticsBounce. cbv zeta. rewrite Hn, Hm, Hhit, Hd.
    destruct (prev_specular st); reflexivity.
  - intros k st deposit next. apply causticsBounce_updates_flag.
  - intros this s. unfold traceCausticsPhoton.
    destruct (sampleRayFromLight scene s) as [[r t] s'].
    apply causticsPath_deposits_at_most_one.
  - intros Hd this sampler nthreads sg sc Hempty. unfold build.
    destruct (photonLoop (traceGlobalPhoton this scene) _ _ _ _ _)
      as [ps samplers].
    cbn [finalGatheringDepth set_globalPhotonMap].
    destruct (finalGatheringDepth this >? 0)%Z.
    + pose proof (photonLoop_without_deposit
                    (traceCausticsPhoton
                       (set_globalPhotonMap this (mkPhotonMap ps)) scene)
                    sc (Z.to_nat (nPhotonsCaustics this)) 
                    (fun s => causticsPath_only_diffuse scene _ s Hd)
                    0%Z samplers []) as Hl.
      cbn [nPhotonsCaustics set_globalPhotonMap] in *.
      destruct (photonLoop _ sc _ _ samplers []) as [qs samplers'].
      cbn in Hl. subst qs. reflexivity.
    + exact Hempty.
  - intros n k st info. apply causticsLoop_at_diffuse.
  - intros n k st deposit next. apply causticsLoop_continues.
  - intros this s s' r t wall. apply causticsPath_light_diffuse.
  - intros this s s0 s1 r r1 t t1 mirror wall.
    apply causticsPath_light_specular_diffuse.
Qed.
End PhotonPasses.

Lemma roulette_in_both_passes_witness :
  let scene := Example.glass_over_floor in
  let hit := Example.glass_hit in
  let drawn (st : PathState) := snd (getNext1D (path_sampler st)) in
  (exists next,
      globalBounce scene 0 Example.falling
      = Continue (globalDeposit hit Example.falling) next) /\
  globalBounce scene 1 Example.falling_dim
  = Break (globalDeposit hit Example.falling_dim)
      (drawn Example.falling_dim) /\
  (exists next,
      globalBounce scene 1 Example.falling_bright
      = Continue (globalDeposit hit Example.falling_bright) next) /\
  (exists next, causticsBounce scene 0 Example.falling = Continue [] next) /\
  causticsBounce scene 1 Example.falling_dim
  = Break [] (drawn Example.falling_dim) /\
  (exists next,
      causticsBounce scene 1 Example.falling_bright = Continue [] next).
Proof.
  cbv zeta.
  assert (Hu : throughputUsable (throughput Example.falling) = true)
    by (vm_compute; reflexivity).
  assert (Hd : throughputUsable (throughput Example.falling_dim) = true)
    by (vm_compute; reflexivity).
  assert (Hb : throughputUsable (throughput Example.falling_bright) = true)
    by (vm_compute; reflexivity).
  assert (Hhit : intersect Example.glass_over_floor Example.falling_ray
                 = Some Example.glass_hit) by (vm_compute; reflexivity).
  assert (Hnd : getBxDFType (hitPrimitive Example.glass_hit) <> DIFFUSE)
    by discriminate.
  destruct (roulette_in_both_passes (SM := Example.toy_world)
              Example.glass_over_floor 0
              Example.falling Example.glass_hit Hu Hhit)
    as (G0 & _ & _ & C).
  destruct (C Hnd) as (C0 & _ & _).
  destruct (roulette_in_both_passes (SM := Example.toy_world)
              Example.glass_over_floor 1
              Example.falling_dim Example.glass_hit Hd Hhit)
    as (_ & G1 & _ & C').
  destruct (C' Hnd) as (_ & C1 & _).
  destruct (roulette_in_both_passes (SM := Example.toy_world)
              Example.glass_over_floor 1
              Example.falling_bright Example.glass_hit Hb Hhit)
    as (_ & _ & G2 & C'').
  destruct (C'' Hnd) as (_ & _ & C2).
  assert (Hbright : fgeb (fst (getNext1D (path_sampler Example.falling_bright)))
                      (fmin (fmax (Binary32.of_Z 1)
                               (fmax (Binary32.of_Z 1) (Binary32.of_Z 1))) f1)
                    = false) by (vm_compute; reflexivity).
  specialize (G0 ltac:(lia)). specialize (C0 ltac:(lia)).
  specialize (G2 ltac:(lia) Hbright). specialize (C2 ltac:(lia) Hbright).
  destruct (scatterPhoton _ _ _ _) as [[t0 r0] s0] in G0, C0.
  destruct (scatterPhoton _ _ _ _) as [[t2 r2] s2] in G2, C2.
  refine (conj _ (conj _ (conj _ (conj _ (conj _ _))))).
  - eexists. exact G0.
  - apply G1; [lia | vm_compute; reflexivity].
  - eexists. exact G2.
  - eexists. exact C0.
  - apply C1; [lia | vm_compute; reflexivity].
  - eexists. exact C2.
Defined.

Lemma floor_only_is_diffuse :
  onlyDiffuse (SM := Example.toy_world) Example.floor_only.
Proof.
  intros r info. cbn. unfold Example.floor_only, Example.hit_plane.
  destruct (_ && _)%bool; [|discriminate].
  destruct (fleb _ _); [|discriminate].
  intros [= <-]. reflexivity.
Qed.

Lemma caustics_pass_deposit_rule_witness :
  causticsBounce Example.floor_only 0 Example.low_after_glass
  = Break [mkPhoton (Vec3f_fill Example.half)
             (position (surfaceInfo Example.floor_hit))
             (vneg Example.down)] Example.first_sampler /\
  causticsBounce Example.floor_only 0 Example.low_from_lamp
  = Break [] Example.first_sampler /\
  prev_specular Example.through_glass = true /\
  photons (causticsPhotonMap
             (build Example.two_counts Example.floor_only
                Example.first_sampler 1 (fun _ => O) (fun _ => O))) = [] /\
  bounceLoop (causticsBounce Example.floor_only) 3 2 Example.low_after_glass
  = ([mkPhoton (Vec3f_fill Example.half)
        (position (surfaceInfo Example.floor_hit)) (vneg Example.down)],
     Example.first_sampler) /\
  bounceLoop (causticsBounce Example.glass_over_floor) 2 0 Example.falling
  = bounceLoop (causticsBounce Example.glass_over_floor) 1 (0 + 1)
      Example.through_glass /\
  traceCausticsPhoton Example.two_counts Example.floor_only
    Example.first_sampler
  = ([], snd Example.emitted) /\
  traceCausticsPhoton Example.two_counts Example.glass_over_floor
    Example.first_sampler
  = ([CausticExample.lit_photon], snd CausticExample.lit_scattered).
Proof.
  destruct (caustics_pass_deposit_rule (SM := Example.toy_world)
              Example.floor_only)
    as (_ & Hdiffuse & _ & _ & Hempty & Hloop & _ & Hld & _).
  destruct (caustics_pass_deposit_rule (SM := Example.toy_world)
              Example.glass_over_floor)
    as (_ & _ & Hflag & _ & _ & _ & Hnext & _ & Hlsd).
  refine (conj _ (conj _ (conj _ (conj _ (conj _ (conj _ (conj _ _))))))).
  - apply (Hdiffuse 0 Example.low_after_glass Example.floor_hit);
      vm_compute; reflexivity.
  - apply (Hdiffuse 0 Example.low_from_lamp Example.floor_hit);
      vm_compute; reflexivity.
  - destruct (Hflag 0 Example.falling [] Example.through_glass)
      as (_ & info & Hhit & ->); [reflexivity|].
    assert (Hg : intersect Example.glass_over_floor (ray Example.falling)
                 = Some Example.glass_hit) by (vm_compute; reflexivity).
    rewrite Hg in Hhit. injection Hhit as <-. reflexivity.
  - apply Hempty; [exact floor_only_is_diffuse | reflexivity].
  - apply (Hloop 2%nat 2 Example.low_after_glass Example.floor_hit);
      vm_compute; reflexivity.
  - apply (Hnext 1%nat 0 Example.falling [] Example.through_glass).
    reflexivity.
  - apply (Hld Example.two_counts Example.first_sampler
             (snd Example.emitted) (fst (fst Example.emitted))
             (snd (fst Example.emitted)) Example.emitted_hit).
    + vm_compute. reflexivity.
    + vm_compute. reflexivity.
    + vm_compute. reflexivity.
    + vm_compute. reflexivity.
    + cbn. lia.
  - apply (Hlsd Example.two_counts Example.first_sampler
             (snd CausticExample.lit) (snd CausticExample.lit_scattered)
             CausticExample.lit_ray
             (snd (fst CausticExample.lit_scattered))
             CausticExample.lit_power
             (fst (fst CausticExample.lit_scattered))
             CausticExample.lit_mirror CausticExample.lit_wall).
    + vm_compute. reflexivity.
    + vm_compute. reflexivity.
    + vm_compute. reflexivity.
    + vm_compute. reflexivity.
    + vm_compute. reflexivity.
    + vm_compute. reflexivity.
    + vm_compute. reflexivity.
    + vm_compute. reflexivity.
    + cbn. lia.
Defined.

Section CameraPass.
Context {F : Type} {FA : FloatArith F} {SM : SceneModel F}.
Local Open Scope float_scope.

Lemma remaining_depth_succ (maxDepth depth : Z) :
  (depth < maxDepth)%Z ->
  Z.to_nat (maxDepth - depth) = S (Z.to_nat (maxDepth - (depth + 1))).
Proof. lia. Qed.

(** The recursive equation of the source: below [maxDepth], a call of
    [integrateRecursive] is the body of the function with the nested calls
    made at [depth + 1].  The bound on the nesting never cuts a call
    short. *)
Lemma integrateRecursive_unfold (this : PhotonMapping F) (ray : Ray F)
      (scene : Scene) (sampler : Sampler) (depth : Z) :
  (depth < maxDepth this)%Z ->
  integrateRecursive this ray scene sampler depth =
  match intersect scene ray with
  | Some info =>
    if hasAreaLight (hitPrimitive info) then
      (Primitive_Le (hitPrimitive info) (surfaceInfo info)
         (vneg (direction ray)), sampler)
    else
      let bxdf_type := getBxDFType (hitPrimitive info) in
      if BxDFType_eqb bxdf_type DIFFUSE then
        if (depth >=? finalGatheringDepth this)%Z then
          (computeRadianceWithPhotonMap this (vneg (direction ray)) info,
           sampler)
        else
          let '(Ld, sampler) :=
            computeDirectIllumination scene (vneg (direction ray)) info
              sampler in
          let Lc :=
            computeCausticsWithPhotonMap this (vneg (direction ray)) info in
          let '(Li, sampler) :=
            computeIndirectIllumination this scene (vneg (direction ray))
              info sampler in
          (vadd (vadd Ld Lc) Li, sampler)
      else if BxDFType_eqb bxdf_type SPECULAR then
        if (depth >=? 3)%Z then
          let '((f, dir, pdf_dir), sampler) :=
            sampleBxDF (hitPrimitive info) (vneg (direction ray))
              (surfaceInfo info) FROM_CAMERA sampler in
          let '(L, sampler) :=
            integrateRecursive this
              (Ray_new (position (surfaceInfo info)) dir) scene sampler
              (depth + 1)%Z in
          (vmul
             (vdivs
                (vscale f
                   (cosTerm (vneg (direction ray)) dir (surfaceInfo info)
                      FROM_CAMERA))
                pdf_dir)
             L,
           sampler)
        else
          fold_left
            (fun (acc : Vec3f F * Sampler) (dp : Vec3f F * Vec3f F) =>
               let '(Lo, sampler) := acc in
               let '(L, sampler) :=
                 integrateRecursive this
                   (Ray_new (position (surfaceInfo info)) (fst dp)) scene
                   sampler (depth + 1)%Z in
               (vadd Lo
                  (vmul
                     (vscale (snd dp)
                        (fabs
                           (dot (fst dp) (shadingNormal (surfaceInfo info)))))
                     L),
                sampler))
            (sampleAllBxDF (hitPrimitive info) (vneg (direction ray))
               (surfaceInfo info) FROM_CAMERA)
            (Vec3f_zero, sampler)
      else (Vec3f_zero, sampler)
  | None => (Vec3f_zero, sampler)
  end.
Proof.
  intros Hd. unfold integrateRecursive at 1.
  rewrite (remaining_depth_succ _ _ Hd). cbn [integrateRecursive_fuel].
  destruct (Z.geb_spec depth (maxDepth this)); [lia|].
  reflexivity.
Qed.

Lemma integrateRecursive_at_maxDepth (this : PhotonMapping F) (ray : Ray F)
      (scene : Scene) (sampler : Sampler) (depth : Z) :
  (maxDepth this <= depth)%Z ->
  integrateRecursive this ray scene sampler depth = (Vec3f_zero, sampler).
Proof.
  intros Hd. unfold integrateRecursive.
  replace (Z.to_nat (maxDepth this - depth)) with O by lia. reflexivity.
Qed.

(** C7. The recursive estimator returns 0 when [depth >= maxDepth]; it
    returns 0 when the ray misses the scene; and when the surface hit is an
    emitter it returns [Le(surface, -ray.direction)] with the sampler
    untouched, whatever the material of the surface. *)
Theorem integrateRecursive_early_returns (this : PhotonMapping F)
        (ray : Ray F) (scene : Scene) (sampler : Sampler) (depth : Z) :
  ((depth >= maxDepth this)%Z ->
   integrateRecursive this ray scene sampler depth = (Vec3f_zero, sampler)) /\
  ((depth < maxDepth this)%Z -> intersect scene ray = None ->
   integrateRecursive this ray scene sampler depth = (Vec3f_zero, sampler)) /\
  (forall info,
      (depth < maxDepth this)%Z -> intersect scene ray = Some info ->
      hasAreaLight (hitPrimitive info) = true ->
      integrateRecursive this ray scene sampler depth
      = (Primitive_Le (hitPrimitive info) (surfaceInfo info)
           (vneg (direction ray)), sampler)).
Proof.
  split; [|split].
  - intros Hd. apply integrateRecursive_at_maxDepth. lia.
  - intros Hd Hmiss. rewrite integrateRecursive_unfold by exact Hd.
    now rewrite Hmiss.
  - intros info Hd Hhit Hlight. rewrite integrateRecursive_unfold by exact Hd.
    now rewrite Hhit, Hlight.
Qed.

(** C8. At a specular hit (below [maxDepth], not an emitter): from depth 3
    on, one direction is sampled and the nested estimate is multiplied by
    [f · cosTerm(FROM_CAMERA) / pdf_dir]; below depth 3 every pair
    [(dir, f)] of [sampleAllBxDF] is followed, in order, and the nested
    estimates are summed with the weight [f · |dir · n_shading|], without
    [cosTerm] and without a division by a pdf. *)
Theorem specular_branch (this : PhotonMapping F) (ray : Ray F)
        (scene : Scene) (sampler : Sampler) (depth : Z)
        (info : IntersectInfo F Primitive) :
  (depth < maxDepth this)%Z ->
  intersect scene ray = Some info ->
  hasAreaLight (hitPrimitive info) = false ->
  getBxDFType (hitPrimitive info) = SPECULAR ->
  let wo := vneg (direction ray) in
  let surface := surfaceInfo info in
  let nested (dir : Vec3f F) (sampler : Sampler) :=
    integrateRecursive this (Ray_new (position surface) dir) scene sampler
      (depth + 1)%Z in
  ((3 <= depth)%Z ->
   integrateRecursive this ray scene sampler depth =
   let '((f, dir, pdf_dir), s1) :=
     sampleBxDF (hitPrimitive info) wo surface FROM_CAMERA sampler in
   let '(L, s2) := nested dir s1 in
   (vmul (vdivs (vscale f (cosTerm wo dir surface FROM_CAMERA)) pdf_dir) L,
    s2)) /\
  ((depth < 3)%Z ->
   integrateRecursive this ray scene sampler depth =
   fold_left
     (fun (acc : Vec3f F * Sampler) (dp : Vec3f F * Vec3f F) =>
        let '(Lo, s) := acc in
        let '(L, s) := nested (fst dp) s in
        (vadd Lo
           (vmul (vscale (snd dp) (fabs (dot (fst dp) (shadingNormal surface))))
              L),
         s))
     (sampleAllBxDF (hitPrimitive info) wo surface FROM_CAMERA)
     (Vec3f_zero, sampler)).
Proof.
  intros Hd Hhit Hlight Hspec. cbv zeta.
  rewrite integrateRecursive_unfold by exact Hd.
  rewrite Hhit, Hlight. cbv zeta. rewrite Hspec. cbn [BxDFType_eqb].
  split; intros H3.
  - destruct (Z.geb_spec depth 3); [|lia]. reflexivity.
  - destruct (Z.geb_spec depth 3); [lia|]. reflexivity.
Qed.

(** C9. Next-event estimation at the shaded point [x]: with [wi] the
    normalised direction to the sampled light point and [r] the distance,
    the area density becomes [p_ω = p_pos · r · r / |(-wi) · n_light|]; the
    shadow ray leaves [x] along [wi] with [tmax = r − RAY_EPS]; when it hits
    nothing the estimate is
    [f(wo, wi, FROM_CAMERA) · |wi · n_shading| · Le / (p_L · p_ω)], and 0
    otherwise.  The sampler has advanced through [sampleLight] and
    [samplePoint] in either case. *)
Theorem direct_illumination_estimate (scene : Scene) (wo : Vec3f F)
        (info : IntersectInfo F Primitive) (sampler s1 s2 : Sampler)
        (light : Light) (p_L p_pos : F) (light_surf : SurfaceInfo F) :
  sampleLight scene sampler = ((light, p_L), s1) ->
  samplePoint light s1 = ((light_surf, p_pos), s2) ->
  let x := position (surfaceInfo info) in
  let wi := normalize (vsub (position light_surf) x) in
  let r := length (vsub (position light_surf) x) in
  let p_omega :=
    p_pos * r * r / fabs (dot (vneg wi) (shadingNormal light_surf)) in
  let shadow := mkRay x wi (r - RAY_EPS) in
  (intersect scene shadow = None ->
   computeDirectIllumination scene wo info sampler
   = (vdivs
        (vmul
           (vscale
              (evaluateBxDF (hitPrimitive info) wo wi (surfaceInfo info)
                 FROM_CAMERA)
              (fabs (dot wi (shadingNormal (surfaceInfo info)))))
           (Light_Le light light_surf (vneg wi)))
        (p_L * p_omega),
      s2)) /\
  (forall blocker,
      intersect scene shadow = Some blocker ->
      computeDirectIllumination scene wo info sampler = (Vec3f_zero, s2)).
Proof.
  intros HL HP. cbv zeta. unfold computeDirectIllumination.
  rewrite HL, HP. unfold set_tmax, Ray_new. cbn [origin direction].
  split.
  - intros ->. reflexivity.
  - intros blocker ->. reflexivity.
Qed.

(** *** The sampler does not see the photon maps *)

Lemma fold_left_sampler_agree {A B C : Type}
      (f g : A * C -> B -> A * C) (l : list B) :
  (forall x y c b, snd (f (x, c) b) = snd (g (y, c) b)) ->
  forall x y c, snd (fold_left f l (x, c)) = snd (fold_left g l (y, c)).
Proof.
  intros Hfg. induction l as [|b l IH]; intros x y c; cbn [fold_left].
  - reflexivity.
  - specialize (Hfg x y c b).
    destruct (f (x, c) b) as [x' c1], (g (y, c) b) as [y' c2].
    cbn in Hfg. subst c2. apply IH.
Qed.

Lemma indirect_sampler_agree (a b : PhotonMapping F) (scene : Scene)
      (fuel : nat) :
  maxDepth a = maxDepth b ->
  forall wo info sampler depth,
    snd (computeIndirectIlluminationRecursive_fuel fuel a scene wo info
           sampler depth)
    = snd (computeIndirectIlluminationRecursive_fuel fuel b scene wo info
             sampler depth).
Proof.
  intros Hmax. induction fuel as [|fuel IH]; intros wo info sampler depth;
    cbn [computeIndirectIlluminationRecursive_fuel]; [reflexivity|].
  rewrite Hmax. destruct (depth >=? maxDepth b)%Z; [reflexivity|].
  destruct (sampleBxDF _ _ _ _ sampler) as [[[f dir] pdf] s1].
  destruct (intersect scene _) as [info_fg|]; [|reflexivity].
  cbv zeta.
  destruct (BxDFType_eqb _ DIFFUSE); [reflexivity|].
  destruct (BxDFType_eqb _ SPECULAR); [|reflexivity].
  specialize (IH (vneg (direction (Ray_new (position (surfaceInfo info)) dir)))
                info_fg s1 (depth + 1)%Z).
  destruct (computeIndirectIlluminationRecursive_fuel fuel a _ _ _ _ _),
           (computeIndirectIlluminationRecursive_fuel fuel b _ _ _ _ _).
  exact IH.
Qed.

Lemma integrate_sampler_agree (a b : PhotonMapping F) (scene : Scene)
      (fuel : nat) :
  maxDepth a = maxDepth b ->
  finalGatheringDepth a = finalGatheringDepth b ->
  forall ray sampler depth,
    snd (integrateRecursive_fuel fuel a ray scene sampler depth)
    = snd (integrateRecursive_fuel fuel b ray scene sampler depth).
Proof.
  intros Hmax Hfg. induction fuel as [|fuel IH]; intros ray sampler depth;
    cbn [integrateRecursive_fuel]; [reflexivity|].
  rewrite Hmax, Hfg. destruct (depth >=? maxDepth b)%Z; [reflexivity|].
  destruct (intersect scene ray) as [info|]; [|reflexivity].
  destruct (hasAreaLight _); [reflexivity|]. cbv zeta.
  destruct (BxDFType_eqb _ DIFFUSE).
  - destruct (depth >=? finalGatheringDepth b)%Z; [reflexivity|].
    destruct (computeDirectIllumination scene _ info sampler) as [Ld s1].
    unfold computeIndirectIllumination, computeIndirectIlluminationRecursive.
    rewrite Hmax.
    pose proof (indirect_sampler_agree a b scene
                  (Z.to_nat (maxDepth b - 0)) Hmax (vneg (direction ray))
                  info s1 0%Z) as Hi.
    destruct (computeIndirectIlluminationRecursive_fuel _ a _ _ _ _ _),
             (computeIndirectIlluminationRecursive_fuel _ b _ _ _ _ _).
    exact Hi.
  - destruct (BxDFType_eqb _ SPECULAR); [|reflexivity].
    destruct (depth >=? 3)%Z.
    + destruct (sampleBxDF _ _ _ _ sampler) as [[[f dir] pdf] s1].
      specialize (IH (Ray_new (position (surfaceInfo info)) dir) s1
                    (depth + 1)%Z).
      destruct (integrateRecursive_fuel fuel a _ _ _ _),
               (integrateRecursive_fuel fuel b _ _ _ _).
      exact IH.
    + apply fold_left_sampler_agree. intros x y c dp.
      specialize (IH (Ray_new (position (surfaceInfo info)) (fst dp)) c
                    (depth + 1)%Z).
      destruct (integrateRecursive_fuel fuel a _ _ _ _),
               (integrateRecursive_fuel fuel b _ _ _ _).
      exact IH.
Qed.

Lemma sampleLoop_draws_agree (a b : PhotonMapping F) (scene : Scene)
      (width height i j : Z) (n : nat) :
  maxDepth a = maxDepth b ->
  finalGatheringDepth a = finalGatheringDepth b ->
  forall ra rb,
    pixel_sampler ra = pixel_sampler rb ->
    camera_samples ra = camera_samples rb ->
    pixel_sampler (sampleLoop a scene width height i j n ra)
    = pixel_sampler (sampleLoop b scene width height i j n rb) /\
    camera_samples (sampleLoop a scene width height i j n ra)
    = camera_samples (sampleLoop b scene width height i j n rb).
Proof.
  intros Hmax Hfg. induction n as [|n IH]; intros ra rb Hs Hc;
    cbn [sampleLoop]; [now split|].
  rewrite Hs, Hc.
  destruct (getNext1D (pixel_sampler rb)) as [x s1].
  destruct (getNext1D s1) as [y s2].
  destruct (sampleRay _ _) as [[r pdf]|]; [|now apply IH].
  unfold integrate, integrateRecursive. rewrite Hmax.
  pose proof (integrate_sampler_agree a b scene (Z.to_nat (maxDepth b - 0))
                Hmax Hfg r s2 0%Z) as Hi.
  destruct (integrateRecursive_fuel _ a _ _ _ _) as [La sa],
           (integrateRecursive_fuel _ b _ _ _ _) as [Lb sb].
  cbn in Hi. subst sb.
  destruct (vany fisnan (vdivs La pdf)), (vany fisnan (vdivs Lb pdf));
    try destruct (vany _ (vdivs La pdf)); try destruct (vany _ (vdivs Lb pdf));
    now apply IH.
Qed.

Lemma build_keeps_depths (this : PhotonMapping F) (scene : Scene)
      (sampler : Sampler) (nthreads : nat) (sg sc : Z -> nat) :
  maxDepth (build this scene sampler nthreads sg sc) = maxDepth this /\
  finalGatheringDepth (build this scene sampler nthreads sg sc)
  = finalGatheringDepth this.
Proof.
  unfold build.
  destruct (photonLoop (traceGlobalPhoton this scene) _ _ _ _ _) as [ps ss].
  cbn [finalGatheringDepth set_globalPhotonMap].
  destruct (finalGatheringDepth this >? 0)%Z; [|now split].
  destruct (photonLoop _ sc _ _ ss []) as [qs ss']. now split.
Qed.

Lemma wrap_int_in_range (z : Z) :
  (- 2 ^ 31 <= z < 2 ^ 31)%Z -> wrap_int z = z.
Proof.
  intros Hz. unfold wrap_int.
  rewrite Z.mod_small by lia. lia.
Qed.

(** C10. In the render phase the sampler of pixel [(i, j)] is seeded with
    [j + width * i].  Take two runs with the same arguments, scene and base
    sampler; let them differ in the number of threads and in the schedule of
    both photon passes, and in the order in which the pixels are picked up.
    The pixel is rendered from the same seed in both, draws the same camera
    samples in the same order and leaves its sampler in the same state. *)
Theorem pixel_samples_independent_of_threads
        (args : Args) (scene : Scene) (sampler : Sampler)
        (nthreads nthreads' : nat) (sg sc sg' sc' : Z -> nat)
        (work work' : list (Z * Z)) (i j : Z) (run run' : PixelRun) :
  let integrator := build (main_integrator args) scene sampler nthreads sg sc in
  let integrator' :=
    build (main_integrator args) scene sampler nthreads' sg' sc' in
  let first := mkPixelRun Vec3f_zero (UniformSampler (pixelSeed (width args) i j)) [] in
  In ((i, j), run)
     (renderPhase integrator scene (width args) (height args) (n_samples args)
        work) ->
  In ((i, j), run')
     (renderPhase integrator' scene (width args) (height args)
        (n_samples args) work') ->
  run = sampleLoop integrator scene (width args) (height args) i j
          (Z.to_nat (n_samples args)) first /\
  run' = sampleLoop integrator' scene (width args) (height args) i j
           (Z.to_nat (n_samples args)) first /\
  camera_samples run = camera_samples run' /\
  pixel_sampler run = pixel_sampler run' /\
  ((0 <= i < height args)%Z -> (0 <= j < width args)%Z ->
   (width args * height args <= 2 ^ 31)%Z ->
   pixelSeed (width args) i j = (j + width args * i)%Z).
Proof.
  cbv zeta. intros Hin Hin'.
  unfold renderPhase in Hin, Hin'.
  apply in_map_iff in Hin as ([i0 j0] & [= -> -> <-] & _).
  apply in_map_iff in Hin' as ([i0 j0] & [= -> -> <-] & _).
  cbn [fst snd]. unfold renderPixel.
  split; [reflexivity|]. split; [reflexivity|].
  destruct (build_keeps_depths (main_integrator args) scene sampler
              nthreads sg sc) as [Hm Hf].
  destruct (build_keeps_depths (main_integrator args) scene sampler
              nthreads' sg' sc') as [Hm' Hf'].
  destruct (sampleLoop_draws_agree
              (build (main_integrator args) scene sampler nthreads sg sc)
              (build (main_integrator args) scene sampler nthreads' sg' sc')
              scene (width args) (height args) i j
              (Z.to_nat (n_samples args))
              (eq_trans Hm (eq_sym Hm')) (eq_trans Hf (eq_sym Hf'))
              (mkPixelRun Vec3f_zero
                 (UniformSampler (pixelSeed (width args) i j)) [])
              (mkPixelRun Vec3f_zero
                 (UniformSampler (pixelSeed (width args) i j)) [])
              eq_refl eq_refl) as [Hs Hc].
  split; [exact Hc|]. split; [exact Hs|].
  intros Hi Hj Hwh. unfold pixelSeed.
  assert (0 <= width args * i <= width args * (height args - 1))%Z by nia.
  rewrite (wrap_int_in_range (width args * i)) by lia.
  apply wrap_int_in_range. nia.
Qed.
End CameraPass.

Lemma integrateRecursive_early_returns_witness :
  integrateRecursive Example.two_counts Example.falling_ray
    Example.glass_over_floor Example.first_sampler 4
  = (Vec3f_zero, Example.first_sampler) /\
  integrateRecursive Example.two_counts Example.falling_ray
    Example.empty_scene Example.first_sampler 0
  = (Vec3f_zero, Example.first_sampler) /\
  integrateRecursive Example.two_counts Example.low_ray
    Example.lamp_floor Example.first_sampler 0
  = (Vec3f_fill (Binary32.of_Z 8), Example.first_sampler).
Proof.
  refine (conj _ (conj _ _)).
  - apply (proj1 (integrateRecursive_early_returns (SM := Example.toy_world)
                    Example.two_counts Example.falling_ray
                    Example.glass_over_floor Example.first_sampler 4)).
    cbn. lia.
  - apply (proj1 (proj2 (integrateRecursive_early_returns
                           (SM := Example.toy_world)
                           Example.two_counts Example.falling_ray
                           Example.empty_scene Example.first_sampler 0)));
      [cbn; lia | reflexivity].
  - apply (proj2 (proj2 (integrateRecursive_early_returns
                           (SM := Example.toy_world)
                           Example.two_counts Example.low_ray
                           Example.lamp_floor Example.first_sampler 0))
             Example.lamp_hit);
      [cbn; lia | vm_compute; reflexivity | reflexivity].
Defined.

Lemma specular_branch_witness :
  let this := Example.two_counts in
  let scene := Example.glass_over_floor in
  let s := Example.first_sampler in
  let wo := vneg (direction Example.falling_ray) in
  let surface := surfaceInfo Example.glass_hit in
  let nested (depth : Z) (dir : Vec3f Binary32.float32) (s : Sampler) :=
    integrateRecursive this (Ray_new (position surface) dir) scene s
      (depth + 1) in
  integrateRecursive this Example.falling_ray scene s 3
  = (let '((f, dir, pdf_dir), s1) :=
       sampleBxDF Example.Glass wo surface FROM_CAMERA s in
     let '(L, s2) := nested 3 dir s1 in
     (vmul (vdivs (vscale f (cosTerm wo dir surface FROM_CAMERA)) pdf_dir) L,
      s2)) /\
  integrateRecursive this Example.falling_ray scene s 0
  = fold_left
      (fun (acc : Vec3f Binary32.float32 * Sampler)
           (dp : Vec3f Binary32.float32 * Vec3f Binary32.float32) =>
         let '(Lo, s) := acc in
         let '(L, s) := nested 0 (fst dp) s in
         (vadd Lo
            (vmul
               (vscale (snd dp) (fabs (dot (fst dp) (shadingNormal surface))))
               L), s))
      (sampleAllBxDF Example.Glass wo surface FROM_CAMERA)
      (Vec3f_zero, s).
Proof.
  cbv zeta.
  assert (Hhit : intersect Example.glass_over_floor Example.falling_ray
                 = Some Example.glass_hit) by (vm_compute; reflexivity).
  split.
  - apply (proj1 (specular_branch (SM := Example.toy_world)
                    Example.two_counts Example.falling_ray
                    Example.glass_over_floor Example.first_sampler 3
                    Example.glass_hit ltac:(cbn; lia) Hhit eq_refl eq_refl)).
    lia.
  - apply (proj2 (specular_branch (SM := Example.toy_world)
                    Example.two_counts Example.falling_ray
                    Example.glass_over_floor Example.first_sampler 0
                    Example.glass_hit ltac:(cbn; lia) Hhit eq_refl eq_refl)).
    lia.
Defined.

Lemma direct_illumination_estimate_witness :
  computeDirectIllumination Example.floor_only Example.up Example.floor_hit
    Example.first_sampler
  = (Vec3f_fill Example.half, Example.first_sampler) /\
  computeDirectIllumination Example.shelf_over_floor Example.up
    Example.floor_hit Example.first_sampler
  = (Vec3f_zero, Example.first_sampler) /\
  computeDirectIllumination Example.roof_over_floor Example.up
    Example.floor_hit Example.first_sampler
  = (Vec3f_fill Example.half, Example.first_sampler).
Proof.
  refine (conj _ (conj _ _)).
  - etransitivity.
    + apply (proj1 (direct_illumination_estimate (SM := Example.toy_world)
                      Example.floor_only Example.up Example.floor_hit
                      Example.first_sampler Example.first_sampler
                      Example.first_sampler tt (Binary32.of_Z 1)
                      (Binary32.of_Z 1) Example.lamp_surface
                      eq_refl eq_refl)).
      vm_compute. reflexivity.
    + vm_compute. reflexivity.
  - eapply (proj2 (direct_illumination_estimate (SM := Example.toy_world)
                     Example.shelf_over_floor Example.up Example.floor_hit
                     Example.first_sampler Example.first_sampler
                     Example.first_sampler tt (Binary32.of_Z 1)
                     (Binary32.of_Z 1) Example.lamp_surface
                     eq_refl eq_refl)).
    vm_compute. reflexivity.
  - etransitivity.
    + apply (proj1 (direct_illumination_estimate (SM := Example.toy_world)
                      Example.roof_over_floor Example.up Example.floor_hit
                      Example.first_sampler Example.first_sampler
                      Example.first_sampler tt (Binary32.of_Z 1)
                      (Binary32.of_Z 1) Example.lamp_surface
                      eq_refl eq_refl)).
      vm_compute. reflexivity.
    + vm_compute. reflexivity.
Defined.

Lemma pixel_samples_independent_of_threads_witness :
  let args := Example.small_args in
  let scene := Example.glass_over_floor in
  let one := build (main_integrator args) scene Example.first_sampler 1
               (fun _ => 0%nat) (fun _ => 0%nat) in
  let two := build (main_integrator args) scene Example.first_sampler 2
               (fun i => Z.to_nat (i mod 2)) (fun i => Z.to_nat (i mod 2)) in
  camera_samples (renderPixel one scene 2 2 1 1 0)
  = camera_samples (renderPixel two scene 2 2 1 1 0) /\
  pixelSeed 2 1 0 = 2.
Proof.
  cbv zeta.
  pose proof (pixel_samples_independent_of_threads
                (SM := Example.toy_world)
                Example.small_args Example.glass_over_floor
                Example.first_sampler 1 2
                (fun _ => 0%nat) (fun _ => 0%nat)
                (fun i => Z.to_nat (i mod 2)) (fun i => Z.to_nat (i mod 2))
                [(0, 0); (0, 1); (1, 0); (1, 1)]
                [(1, 1); (1, 0); (0, 1); (0, 0)] 1 0
                _ _
                (or_intror (or_intror (or_introl eq_refl)))
                (or_intror (or_introl eq_refl)))
    as (_ & _ & Hsamples & _ & Hseed).
  split.
  - exact Hsamples.
  - assert (Hw : width Example.small_args = 2) by (vm_compute; reflexivity).
    assert (Hh : height Example.small_args = 2) by (vm_compute; reflexivity).
    rewrite Hw, Hh in Hseed. apply Hseed; lia.
Defined.

(** * Further properties of the photon passes *)

Section DepositInvariants.
Context {F : Type} {FA : FloatArith F} {SM : SceneModel F}.
Local Open Scope float_scope.

Lemma usable_of_checks (t : Vec3f F) :
  vany fisnan t = false -> vany (fun c => c <? f0) t = false ->
  throughputUsable t = true.
Proof. intros Hn Hm. unfold throughputUsable. now rewrite Hn, Hm. Qed.

Lemma globalBounce_deposit_shape (scene : Scene) (k : Z) (st : PathState) :
  bounceDeposit (globalBounce scene k st) = [] \/
  exists info,
    throughputUsable (throughput st) = true /\
    intersect scene (ray st) = Some info /\
    getBxDFType (hitPrimitive info) = DIFFUSE /\
    bounceDeposit (globalBounce scene k st)
    = [mkPhoton (throughput st) (position (surfaceInfo info))
         (vneg (direction (ray st)))].
Proof.
  unfold globalBounce. cbv zeta.
  destruct (vany fisnan (throughput st)) eqn:Hn; [now left|].
  destruct (vany (fun c => c <? f0) (throughput st)) eqn:Hm; [now left|].
  destruct (intersect scene (ray st)) as [info|] eqn:Hhit; [|now left].
  pose proof (usable_of_checks _ Hn Hm) as Hu.
  destruct (getBxDFType (hitPrimitive info)) eqn:Ht; cbn [BxDFType_eqb].
  - right. exists info. repeat (split; [assumption || reflexivity|]).
    destruct (k >? 0)%Z.
    + destruct (getNext1D (path_sampler st)) as [u s1].
      destruct (fgeb u _); [reflexivity|].
      destruct (sampleBxDF _ _ _ _ s1) as [[[f dir] pdf] s2]. reflexivity.
    + destruct (sampleBxDF _ _ _ _ (path_sampler st)) as [[[f dir] pdf] s2].
      reflexivity.
  - left. destruct (k >? 0)%Z.
    + destruct (getNext1D (path_sampler st)) as [u s1].
      destruct (fgeb u _); [reflexivity|].
      destruct (sampleBxDF _ _ _ _ s1) as [[[f dir] pdf] s2]. reflexivity.
    + destruct (sampleBxDF _ _ _ _ (path_sampler st)) as [[[f dir] pdf] s2].
      reflexivity.
Qed.

Lemma causticsBounce_deposit_shape (scene : Scene) (k : Z) (st : PathState) :
  bounceDeposit (causticsBounce scene k st) = [] \/
  exists info,
    throughputUsable (throughput st) = true /\
    prev_specular st = true /\
    intersect scene (ray st) = Some info /\
    getBxDFType (hitPrimitive info) = DIFFUSE /\
    causticsBounce scene k st
    = Break [mkPhoton (throughput st) (position (surfaceInfo info))
               (vneg (direction (ray st)))] (path_sampler st).
Proof.
  unfold causticsBounce. cbv zeta.
  destruct (vany fisnan (throughput st)) eqn:Hn; [now left|].
  destruct (vany (fun c => c <? f0) (throughput st)) eqn:Hm; [now left|].
  destruct (intersect scene (ray st)) as [info|] eqn:Hhit; [|now left].
  pose proof (usable_of_checks _ Hn Hm) as Hu.
  destruct (prev_specular st) eqn:Hp;
    destruct (getBxDFType (hitPrimitive info)) eqn:Ht; cbn.
  - right. exists info. now repeat split.
  - left. destruct (k >? 0)%Z.
    + destruct (getNext1D (path_sampler st)) as [u s1].
      destruct (fgeb u _); [reflexivity|].
      destruct (sampleBxDF _ _ _ _ s1) as [[[f dir] pdf] s2]. reflexivity.
    + destruct (sampleBxDF _ _ _ _ (path_sampler st)) as [[[f dir] pdf] s2].
      reflexivity.
  - now left.
  - left. destruct (k >? 0)%Z.
    + destruct (getNext1D (path_sampler st)) as [u s1].
      destruct (fgeb u _); [reflexivity|].
      destruct (sampleBxDF _ _ _ _ s1) as [[[f dir] pdf] s2]. reflexivity.
    + destruct (sampleBxDF _ _ _ _ (path_sampler st)) as [[[f dir] pdf] s2].
      reflexivity.
Qed.

Lemma bounceLoop_Forall (body : Z -> PathState -> Bounce)
      (P : Photon F -> Prop) :
  (forall k st, Forall P (bounceDeposit (body k st))) ->
  forall n k st, Forall P (fst (bounceLoop body n k st)).
Proof.
  intros Hb. induction n as [|n IH]; intros k st; cbn [bounceLoop].
  - constructor.
  - specialize (Hb k st).
    destruct (body k st) as [deposit s|deposit next]; cbn in Hb.
    + exact Hb.
    + specialize (IH (k + 1)%Z next).
      destruct (bounceLoop body n (k + 1)%Z next) as [rest s].
      cbn in *. apply Forall_app. now split.
Qed.

Lemma photonLoop_Forall (trace : Sampler -> list (Photon F) * Sampler)
      (thread_of : Z -> nat) (P : Photon F -> Prop) :
  (forall s, Forall P (fst (trace s))) ->
  forall n i samplers acc,
    Forall P acc ->
    Forall P (fst (photonLoop trace thread_of n i samplers acc)).
Proof.
  intros Ht. induction n as [|n IH]; intros i samplers acc Hacc;
    cbn [photonLoop]; [exact Hacc|].
  destruct (nth_error samplers (thread_of i)) as [s|]; [|now apply IH].
  specialize (Ht s). destruct (trace s) as [deposit s']. cbn in Ht.
  apply IH. apply Forall_app. now split.
Qed.

Lemma globalPath_deposits (this : PhotonMapping F) (scene : Scene)
      (s : Sampler) :
  Forall (depositedAt scene) (fst (traceGlobalPhoton this scene s)).
Proof.
  unfold traceGlobalPhoton.
  destruct (sampleRayFromLight scene s) as [[r t] s'].
  apply bounceLoop_Forall. intros k st.
  destruct (globalBounce_deposit_shape scene k st)
    as [-> | (info & Hu & Hhit & Hd & ->)]; [constructor|].
  constructor; [|constructor].
  exists (ray st), info. now repeat split.
Qed.

Lemma causticsPath_deposits (this : PhotonMapping F) (scene : Scene)
      (s : Sampler) :
  Forall (depositedAt scene) (fst (traceCausticsPhoton this scene s)).
Proof.
  unfold traceCausticsPhoton.
  destruct (sampleRayFromLight scene s) as [[r t] s'].
  apply bounceLoop_Forall. intros k st.
  destruct (causticsBounce_deposit_shape scene k st)
    as [-> | (info & Hu & Hp & Hhit & Hd & ->)]; [constructor|].
  constructor; [|constructor].
  exists (ray st), info. now repeat split.
Qed.

Lemma build_globalPhotonMap (this : PhotonMapping F) (scene : Scene)
      (sampler : Sampler) (nthreads : nat) (sg sc : Z -> nat) :
  photons (globalPhotonMap (build this scene sampler nthreads sg sc))
  = fst (photonLoop (traceGlobalPhoton this scene) sg
           (Z.to_nat (nPhotonsGlobal this)) 0%Z
           (initSamplers sampler nthreads) []).
Proof.
  unfold build.
  destruct (photonLoop (traceGlobalPhoton this scene) _ _ _ _ _) as [ps ss].
  cbn [finalGatheringDepth set_globalPhotonMap].
  destruct (finalGatheringDepth this >? 0)%Z; [|reflexivity].
  destruct (photonLoop _ sc _ _ ss []) as [qs ss']. reflexivity.
Qed.

Lemma build_causticsPhotonMap (this : PhotonMapping F) (scene : Scene)
      (sampler : Sampler) (nthreads : nat) (sg sc : Z -> nat) :
  (0 < finalGatheringDepth this)%Z ->
  exists this' samplers,
    maxDepth this' = maxDepth this /\
    photons (causticsPhotonMap (build this scene sampler nthreads sg sc))
    = fst (photonLoop (traceCausticsPhoton this' scene) sc
             (Z.to_nat (nPhotonsCaustics this)) 0%Z samplers []).
Proof.
  intros Hf. unfold build.
  destruct (photonLoop (traceGlobalPhoton this scene) _ _ _ _ _) as [ps ss].
  cbn [finalGatheringDepth set_globalPhotonMap nPhotonsCaustics].
  destruct (Z.gtb_spec (finalGatheringDepth this) 0); [|lia].
  exists (set_globalPhotonMap this (mkPhotonMap ps)), ss.
  split; [reflexivity|].
  cbn [set_globalPhotonMap].
  destruct (photonLoop _ sc _ _ ss []) as [qs ss']. reflexivity.
Qed.

Lemma build_skips_caustics (this : PhotonMapping F) (scene : Scene)
      (sampler : Sampler) (nthreads : nat) (sg sc : Z -> nat) :
  (finalGatheringDepth this <= 0)%Z ->
  causticsPhotonMap (build this scene sampler nthreads sg sc)
  = causticsPhotonMap this.
Proof.
  intros Hf. unfold build.
  destruct (photonLoop (traceGlobalPhoton this scene) _ _ _ _ _) as [ps ss].
  cbn [finalGatheringDepth set_globalPhotonMap].
  destruct (Z.gtb_spec (finalGatheringDepth this) 0); [lia|]. reflexivity.
Qed.

(** X1. Every photon that [build] puts into the global map, and every
    photon that the caustics pass (run when [finalGatheringDepth > 0]) puts
    into the caustics map, records a hit on a diffuse surface of the scene:
    its position is the hit position, its [wi] the reversed direction of the
    ray, and no channel of its throughput is NaN or negative.  This holds
    for every number of threads and every schedule. *)
Theorem stored_photons_are_checked_diffuse_hits
        (this : PhotonMapping F) (scene : Scene) (sampler : Sampler)
        (nthreads : nat) (sg sc : Z -> nat) (p : Photon F) :
  let built := build this scene sampler nthreads sg sc in
  (In p (photons (globalPhotonMap built)) -> depositedAt scene p) /\
  ((0 < finalGatheringDepth this)%Z ->
   In p (photons (causticsPhotonMap built)) -> depositedAt scene p).
Proof.
  cbv zeta. split.
  - rewrite build_globalPhotonMap. intros Hin.
    pose proof (photonLoop_Forall (traceGlobalPhoton this scene) sg
                  (depositedAt scene) (globalPath_deposits this scene)
                  (Z.to_nat (nPhotonsGlobal this)) 0%Z
                  (initSamplers sampler nthreads) [] (Forall_nil _)) as Hall.
    rewrite Forall_forall in Hall. now apply Hall.
  - intros Hf.
    destruct (build_causticsPhotonMap this scene sampler nthreads sg sc Hf)
      as (this' & ss & _ & ->).
    intros Hin.
    pose proof (photonLoop_Forall (traceCausticsPhoton this' scene) sc
                  (depositedAt scene) (causticsPath_deposits this' scene)
                  (Z.to_nat (nPhotonsCaustics this)) 0%Z ss []
                  (Forall_nil _)) as Hall.
    rewrite Forall_forall in Hall. now apply Hall.
Qed.

Lemma bounceLoop_length (body : Z -> PathState -> Bounce) :
  (forall k st, (List.length (bounceDeposit (body k st)) <= 1)%nat) ->
  forall n k st, (List.length (fst (bounceLoop body n k st)) <= n)%nat.
Proof.
  intros Hb. induction n as [|n IH]; intros k st; cbn [bounceLoop].
  - cbn. lia.
  - specialize (Hb k st).
    destruct (body k st) as [deposit s|deposit next]; cbn in Hb.
    + cbn. lia.
    + specialize (IH (k + 1)%Z next).
      destruct (bounceLoop body n (k + 1)%Z next) as [rest s].
      cbn in *. rewrite length_app. lia.
Qed.

Lemma photonLoop_length (trace : Sampler -> list (Photon F) * Sampler)
      (thread_of : Z -> nat) (m : nat) :
  (forall s, (List.length (fst (trace s)) <= m)%nat) ->
  forall n i samplers acc,
    (List.length (fst (photonLoop trace thread_of n i samplers acc))
     <= List.length acc + n * m)%nat.
Proof.
  intros Ht. induction n as [|n IH]; intros i samplers acc;
    cbn [photonLoop]; [cbn; lia|].
  destruct (nth_error samplers (thread_of i)) as [s|].
  - specialize (Ht s). destruct (trace s) as [deposit s']. cbn in Ht.
    specialize (IH (i + 1)%Z (list_set samplers (thread_of i) s')
                  (acc ++ deposit)).
    rewrite length_app in IH. lia.
  - specialize (IH (i + 1)%Z samplers acc). lia.
Qed.

Lemma globalPath_length (this : PhotonMapping F) (scene : Scene)
      (s : Sampler) :
  (List.length (fst (traceGlobalPhoton this scene s))
   <= Z.to_nat (maxDepth this))%nat.
Proof.
  unfold traceGlobalPhoton.
  destruct (sampleRayFromLight scene s) as [[r t] s'].
  apply bounceLoop_length. intros k st.
  destruct (globalBounce_deposit_shape scene k st)
    as [-> | (info & _ & _ & _ & ->)]; cbn; lia.
Qed.

Lemma causticsPath_length (this : PhotonMapping F) (scene : Scene)
      (s : Sampler) :
  (List.length (fst (traceCausticsPhoton this scene s)) <= 1)%nat.
Proof.
  unfold traceCausticsPhoton.
  destruct (sampleRayFromLight scene s) as [[r t] s'].
  apply causticsPath_deposits_at_most_one.
Qed.

(** X2. The sizes of the two stores are bounded by the arguments: a path
    of the global pass appends at most one photon per bounce, so the global
    map holds at most [nPhotonsGlobal * maxDepth] photons; a path of the
    caustics pass appends at most one photon, so the caustics map built by
    that pass holds at most [nPhotonsCaustics].  A count that is zero or
    negative gives an empty store. *)
Theorem store_sizes_are_bounded
        (this : PhotonMapping F) (scene : Scene) (sampler : Sampler)
        (nthreads : nat) (sg sc : Z -> nat) :
  let built := build this scene sampler nthreads sg sc in
  (List.length (photons (globalPhotonMap built))
   <= Z.to_nat (nPhotonsGlobal this) * Z.to_nat (maxDepth this))%nat /\
  ((0 < finalGatheringDepth this)%Z ->
   (List.length (photons (causticsPhotonMap built))
    <= Z.to_nat (nPhotonsCaustics this))%nat).
Proof.
  cbv zeta. split.
  - rewrite build_globalPhotonMap.
    pose proof (photonLoop_length (traceGlobalPhoton this scene) sg
                  (Z.to_nat (maxDepth this)) (globalPath_length this scene)
                  (Z.to_nat (nPhotonsGlobal this)) 0%Z
                  (initSamplers sampler nthreads) []) as Hl.
    cbn [List.length] in Hl. lia.
  - intros Hf.
    destruct (build_causticsPhotonMap this scene sampler nthreads sg sc Hf)
      as (this' & ss & _ & ->).
    pose proof (photonLoop_length (traceCausticsPhoton this' scene) sc 1
                  (causticsPath_length this' scene)
                  (Z.to_nat (nPhotonsCaustics this)) 0%Z ss []) as Hl.
    cbn [List.length] in Hl. lia.
Qed.

Lemma causticsBounce_continue_is_specular (scene : Scene) (k : Z)
      (st next : PathState) (deposit : list (Photon F)) :
  causticsBounce scene k st = Continue deposit next ->
  specularBounce scene k st next.
Proof.
  intros Hc.
  destruct (causticsBounce_updates_flag _ _ _ _ _ Hc)
    as (-> & info & Hhit & _).
  exists info. split; [exact Hhit|]. split; [|exact Hc].
  revert Hc. unfold causticsBounce. cbv zeta.
  destruct (vany fisnan (throughput st)); [discriminate|].
  destruct (vany (fun c => c <? f0) (throughput st)); [discriminate|].
  rewrite Hhit.
  destruct (getBxDFType (hitPrimitive info)); [|reflexivity].
  destruct (prev_specular st); discriminate.
Qed.

Lemma causticsLoop_causticOfLight (scene : Scene) (s s' : Sampler)
      (r : Ray F) (t : Vec3f F) :
  sampleRayFromLight scene s = ((r, t), s') ->
  forall n k st,
    (k = 0%Z /\ st = mkPathState t r false s') \/
    specularChain scene 0 (mkPathState t r false s') k st ->
    Forall (causticOfLight scene)
           (fst (bounceLoop (causticsBounce scene) n k st)).
Proof.
  intros Hs. induction n as [|n IH]; intros k st Hreach;
    cbn [bounceLoop]; [constructor|].
  destruct (causticsBounce scene k st) as [deposit s1|deposit next] eqn:E.
  - cbn [fst].
    destruct (causticsBounce_deposit_shape scene k st)
      as [Hnil | (wall & _ & Hp & Hhit & Hd & Hb)].
    + rewrite E in Hnil. cbn in Hnil. subst deposit. constructor.
    + rewrite E in Hb. injection Hb as -> _.
      destruct Hreach as [[_ ->] | Hchain]; [discriminate Hp|].
      constructor; [|constructor].
      exists s, s', r, t, k, st, wall. now repeat split.
  - pose proof (causticsBounce_continue_is_specular _ _ _ _ _ E) as Hstep.
    destruct (causticsBounce_updates_flag _ _ _ _ _ E) as [-> _].
    assert (Hnext : specularChain scene 0 (mkPathState t r false s')
                      (k + 1) next).
    { destruct Hreach as [[-> ->] | Hchain].
      - now apply chain_first.
      - now apply chain_next with (mid := st). }
    specialize (IH (k + 1)%Z next (or_intror Hnext)).
    destruct (bounceLoop (causticsBounce scene) n (k + 1)%Z next).
    exact IH.
Qed.

Lemma causticsPath_causticOfLight (this : PhotonMapping F) (scene : Scene)
      (s : Sampler) :
  Forall (causticOfLight scene) (fst (traceCausticsPhoton this scene s)).
Proof.
  unfold traceCausticsPhoton.
  destruct (sampleRayFromLight scene s) as [[r t] s'] eqn:Hs.
  apply (causticsLoop_causticOfLight scene s s' r t Hs). now left.
Qed.

(** X3. Every photon of the caustics map built by [build] is the end of a
    light path L S+ D: a path that starts with a ray and a throughput
    sampled on a light, bounces from iteration 0 of the loop on specular
    surfaces only, at least once, and then hits a diffuse surface, where the
    photon is recorded with the throughput and direction the path has
    there. *)
Theorem caustics_photons_follow_specular
        (this : PhotonMapping F) (scene : Scene) (sampler : Sampler)
        (nthreads : nat) (sg sc : Z -> nat) (p : Photon F) :
  (0 < finalGatheringDepth this)%Z ->
  In p (photons (causticsPhotonMap
                   (build this scene sampler nthreads sg sc))) ->
  causticOfLight scene p.
Proof.
  intros Hf.
  destruct (build_causticsPhotonMap this scene sampler nthreads sg sc Hf)
    as (this' & ss & _ & ->).
  intros Hin.
  pose proof (photonLoop_Forall (traceCausticsPhoton this' scene) sc
                (causticOfLight scene)
                (causticsPath_causticOfLight this' scene)
                (Z.to_nat (nPhotonsCaustics this)) 0%Z ss []
                (Forall_nil _)) as Hall.
  rewrite Forall_forall in Hall. now apply Hall.
Qed.

Lemma causticsLoop_short (scene : Scene) (n : nat) (k : Z) (st : PathState) :
  (n <= 1)%nat -> prev_specular st = false ->
  fst (bounceLoop (causticsBounce scene) n k st) = [].
Proof.
  intros Hn Hp. destruct n as [|[|n]]; [reflexivity| |lia].
  cbn [bounceLoop].
  destruct (causticsBounce scene k st) as [deposit s|deposit next] eqn:E.
  - destruct (causticsBounce_deposit_shape scene k st)
      as [Hnil | (wall & _ & Hp' & _)]; [|congruence].
    rewrite E in Hnil. exact Hnil.
  - destruct (causticsBounce_updates_flag scene k st next deposit E)
      as (-> & _). reflexivity.
Qed.

(** X4. A caustic needs two hits: with [maxDepth <= 1] no path of the
    caustics pass appends a photon, and the caustics map that [build]
    makes is empty whatever the scene. *)
Theorem caustics_map_needs_two_bounces
        (this : PhotonMapping F) (scene : Scene) (sampler : Sampler)
        (nthreads : nat) (sg sc : Z -> nat) :
  (maxDepth this <= 1)%Z ->
  (0 < finalGatheringDepth this)%Z ->
  photons (causticsPhotonMap (build this scene sampler nthreads sg sc)) = [].
Proof.
  intros Hm Hf.
  destruct (build_causticsPhotonMap this scene sampler nthreads sg sc Hf)
    as (this' & ss & Hm' & ->).
  apply photonLoop_without_deposit. intros s.
  unfold traceCausticsPhoton.
  destruct (sampleRayFromLight scene s) as [[r t] s'].
  apply causticsLoop_short; [lia | reflexivity].
Qed.

(** X5. Over a scene without a diffuse surface nothing is ever stored:
    after [build] the global map is empty, and so is the caustics map that
    the caustics pass makes. *)
Theorem no_diffuse_surface_no_photon
        (this : PhotonMapping F) (scene : Scene) (sampler : Sampler)
        (nthreads : nat) (sg sc : Z -> nat) :
  noDiffuse scene ->
  let built := build this scene sampler nthreads sg sc in
  photons (globalPhotonMap built) = [] /\
  ((0 < finalGatheringDepth this)%Z ->
   photons (causticsPhotonMap built) = []).
Proof.
  intros Hnd. cbv zeta.
  assert (Hnone : forall p, ~ depositedAt scene p).
  { intros p (r & info & Hhit & Hd & _). exact (Hnd r info Hhit Hd). }
  assert (Hnil : forall l : list (Photon F),
             Forall (depositedAt scene) l -> l = []).
  { intros [|p l] Hl; [reflexivity|].
    inversion Hl as [|? ? Hp _]. destruct (Hnone p Hp). }
  split.
  - rewrite build_globalPhotonMap.
    apply photonLoop_without_deposit. intros s.
    apply Hnil, globalPath_deposits.
  - intros Hf.
    destruct (build_causticsPhotonMap this scene sampler nthreads sg sc Hf)
      as (this' & ss & _ & ->).
    apply photonLoop_without_deposit. intros s.
    apply Hnil, causticsPath_deposits.
Qed.

(** X6. The global map records direct light: when the ray sampled on the
    light first hits a diffuse surface (and [maxDepth >= 1], and the emitted
    throughput passes the checks), the path's first photon carries exactly
    the emitted throughput, at that hit, with [wi] the reversed emission
    direction. *)
Theorem global_path_records_first_hit
        (this : PhotonMapping F) (scene : Scene) (s s' : Sampler)
        (r : Ray F) (t : Vec3f F) (info : IntersectInfo F Primitive) :
  sampleRayFromLight scene s = ((r, t), s') ->
  throughputUsable t = true ->
  intersect scene r = Some info ->
  getBxDFType (hitPrimitive info) = DIFFUSE ->
  (1 <= maxDepth this)%Z ->
  exists rest,
    fst (traceGlobalPhoton this scene s)
    = mkPhoton t (position (surfaceInfo info)) (vneg (direction r)) :: rest.
Proof.
  intros Hs Hu Hhit Hd Hm. unfold traceGlobalPhoton. rewrite Hs.
  destruct (Z.to_nat (maxDepth this)) as [|n] eqn:En; [lia|].
  cbn [bounceLoop].
  set (st := mkPathState t r false s').
  destruct (globalBounce_deposit_shape scene 0%Z st)
    as [Hnil | (info' & _ & Hhit' & _ & Hdep)].
  - exfalso. revert Hnil. unfold globalBounce. cbv zeta.
    apply throughputUsable_checks in Hu as [Hn Hneg].
    cbn [throughput ray path_sampler st]. rewrite Hn, Hneg, Hhit, Hd.
    cbn [BxDFType_eqb Z.gtb Z.compare].
    destruct (sampleBxDF _ _ _ _ s') as [[[f dir] pdf] s2]. discriminate.
  - cbn [ray st] in Hhit'. rewrite Hhit in Hhit'. injection Hhit' as <-.
    cbn [throughput ray st] in Hdep.
    destruct (globalBounce scene 0%Z st) as [deposit s1|deposit next];
      cbn in Hdep; subst deposit.
    + now exists [].
    + destruct (bounceLoop (globalBounce scene) n (0 + 1)%Z next)
        as [rest s1].
      now exists rest.
Qed.
End DepositInvariants.

(** * Further properties of the camera pass *)

Section CameraFacts.
Context {F : Type} {FA : FloatArith F} {SM : SceneModel F}.
Local Open Scope float_scope.

Lemma fold_left_pointwise {A B : Type} (f g : A -> B -> A) (l : list B) :
  (forall a b, f a b = g a b) ->
  forall a, fold_left f l a = fold_left g l a.
Proof.
  intros Hfg. induction l as [|b l IH]; intros a; cbn [fold_left].
  - reflexivity.
  - rewrite Hfg. apply IH.
Qed.

Lemma radiance_sameButCaustics (a b : PhotonMapping F) (wo : Vec3f F)
      (info : IntersectInfo F Primitive) :
  sameButCaustics a b ->
  computeRadianceWithPhotonMap a wo info
  = computeRadianceWithPhotonMap b wo info.
Proof.
  intros (Hn & He & _ & _ & Hg). unfold computeRadianceWithPhotonMap.
  now rewrite Hn, He, Hg.
Qed.

Lemma indirect_sameButCaustics (a b : PhotonMapping F) (scene : Scene)
      (fuel : nat) :
  sameButCaustics a b ->
  forall wo info sampler depth,
    computeIndirectIlluminationRecursive_fuel fuel a scene wo info sampler
      depth
    = computeIndirectIlluminationRecursive_fuel fuel b scene wo info sampler
        depth.
Proof.
  intros Hab. pose proof Hab as (_ & _ & _ & Hmax & _).
  induction fuel as [|fuel IH]; intros wo info sampler depth;
    cbn [computeIndirectIlluminationRecursive_fuel]; [reflexivity|].
  rewrite Hmax. destruct (depth >=? maxDepth b)%Z; [reflexivity|].
  destruct (sampleBxDF _ _ _ _ sampler) as [[[f dir] pdf] s1].
  destruct (intersect scene _) as [info_fg|]; [|reflexivity].
  cbv zeta. rewrite (radiance_sameButCaustics a b _ _ Hab).
  destruct (BxDFType_eqb _ DIFFUSE); [reflexivity|].
  destruct (BxDFType_eqb _ SPECULAR); [|reflexivity].
  now rewrite IH.
Qed.

Lemma integrate_deep_sameButCaustics (a b : PhotonMapping F) (scene : Scene)
      (fuel : nat) :
  sameButCaustics a b ->
  forall ray sampler depth,
    (finalGatheringDepth a <= depth)%Z ->
    integrateRecursive_fuel fuel a ray scene sampler depth
    = integrateRecursive_fuel fuel b ray scene sampler depth.
Proof.
  intros Hab. pose proof Hab as (_ & _ & Hfg & Hmax & _).
  induction fuel as [|fuel IH]; intros ray sampler depth Hdeep;
    cbn [integrateRecursive_fuel]; [reflexivity|].
  rewrite Hmax. destruct (depth >=? maxDepth b)%Z; [reflexivity|].
  destruct (intersect scene ray) as [info|]; [|reflexivity].
  destruct (hasAreaLight _); [reflexivity|]. cbv zeta.
  destruct (BxDFType_eqb _ DIFFUSE).
  - rewrite <- Hfg.
    destruct (Z.geb_spec depth (finalGatheringDepth a)); [|lia].
    now rewrite (radiance_sameButCaustics a b _ _ Hab).
  - destruct (BxDFType_eqb _ SPECULAR); [|reflexivity].
    destruct (depth >=? 3)%Z.
    + destruct (sampleBxDF _ _ _ _ sampler) as [[[f dir] pdf] s1].
      now rewrite IH by lia.
    + apply fold_left_pointwise. intros [Lo s] dp.
      now rewrite IH by lia.
Qed.

(** X7. The caustics side is read only above [finalGatheringDepth]: two
    integrators that differ in nothing but the caustics map,
    [nPhotonsCaustics] and [nEstimationCaustics] give the same final
    gathering at every hit, and the same [integrateRecursive] from depth
    [finalGatheringDepth] on.  With [finalGatheringDepth <= 0], therefore,
    [integrate] does not depend on the caustics side at all. *)
Theorem caustics_side_is_shallow_only (a b : PhotonMapping F) :
  sameButCaustics a b ->
  (forall scene wo info sampler,
      computeIndirectIllumination a scene wo info sampler
      = computeIndirectIllumination b scene wo info sampler) /\
  (forall ray scene sampler depth,
      (finalGatheringDepth a <= depth)%Z ->
      integrateRecursive a ray scene sampler depth
      = integrateRecursive b ray scene sampler depth) /\
  ((finalGatheringDepth a <= 0)%Z ->
   forall ray scene sampler,
     integrate a ray scene sampler = integrate b ray scene sampler).
Proof.
  intros Hab. pose proof Hab as (_ & _ & _ & Hmax & _).
  assert (Hdeep : forall ray scene sampler depth,
             (finalGatheringDepth a <= depth)%Z ->
             integrateRecursive a ray scene sampler depth
             = integrateRecursive b ray scene sampler depth).
  { intros ray scene sampler depth Hd. unfold integrateRecursive.
    rewrite Hmax. now apply integrate_deep_sameButCaustics. }
  split; [|split].
  - intros scene wo info sampler.
    unfold computeIndirectIllumination, computeIndirectIlluminationRecursive.
    rewrite Hmax. now apply indirect_sameButCaustics.
  - exact Hdeep.
  - intros Hf ray scene sampler. unfold integrate. now apply Hdeep.
Qed.

(** X10. Inside an image whose pixel count fits in [int], distinct pixels
    get distinct sampler seeds. *)
Theorem pixel_seeds_are_distinct (width height i j i' j' : Z) :
  (0 <= i < height)%Z -> (0 <= j < width)%Z ->
  (0 <= i' < height)%Z -> (0 <= j' < width)%Z ->
  (width * height <= 2 ^ 31)%Z ->
  pixelSeed width i j = pixelSeed width i' j' ->
  i = i' /\ j = j'.
Proof.
  intros Hi Hj Hi' Hj' Hwh. unfold pixelSeed.
  assert (0 <= width * i <= width * (height - 1))%Z by nia.
  assert (0 <= width * i' <= width * (height - 1))%Z by nia.
  rewrite (wrap_int_in_range (width * i)) by lia.
  rewrite (wrap_int_in_range (width * i')) by lia.
  rewrite !wrap_int_in_range by nia.
  intros Heq.
  assert (Hii : i = i').
  { destruct (Z.lt_trichotomy i i') as [Hlt | [Heq' | Hgt]];
      [exfalso | exact Heq' | exfalso].
    - assert (width * (i + 1) <= width * i')%Z
        by (apply Z.mul_le_mono_nonneg_l; lia).
      lia.
    - assert (width * (i' + 1) <= width * i)%Z
        by (apply Z.mul_le_mono_nonneg_l; lia).
      lia. }
  subst i'. split; [reflexivity | lia].
Qed.
End CameraFacts.

(** * Properties that hold in IEEE binary32 arithmetic *)

Section Float32Facts.
Import Binary32.

Lemma binary_round_aux_signless (m e : Z) (l : location) :
  signless (binary_round_aux prec emax false m e l) = true.
Proof.
  unfold binary_round_aux.
  destruct (shr_fexp prec emax m e l) as [mrs' e'].
  destruct (shr_fexp prec emax _ e' loc_Exact) as [mrs'' e''].
  destruct (shr_m mrs''); [reflexivity| |reflexivity].
  destruct (e'' <=? emax - prec)%Z; reflexivity.
Qed.

Lemma fabs_signless (x : float32) : signless (fabs x) = true.
Proof. destruct x; reflexivity. Qed.

Lemma fmul_signless (x y : float32) :
  signless x = true -> signless y = true -> signless (fmul x y) = true.
Proof.
  change (fmul x y) with (SFmul prec emax x y).
  destruct x as [sx|sx| |sx mx ex], y as [sy|sy| |sy my ey];
    cbn [signless SFmul]; intros Hx Hy;
    try reflexivity;
    try (apply negb_true_iff in Hx; apply negb_true_iff in Hy; subst;
         first [reflexivity | apply binary_round_aux_signless]).
Qed.

Lemma fdiv_signless (x y : float32) :
  signless x = true -> signless y = true -> signless (fdiv x y) = true.
Proof.
  change (fdiv x y) with (SFdiv prec emax x y).
  destruct x as [sx|sx| |sx mx ex], y as [sy|sy| |sy my ey];
    cbn [signless SFdiv]; intros Hx Hy;
    try reflexivity;
    try (apply negb_true_iff in Hx; apply negb_true_iff in Hy; subst;
         try reflexivity).
  destruct (SFdiv_core_binary prec emax (Z.pos mx) ex (Z.pos my) ey)
    as [[mz ez] lz].
  apply binary_round_aux_signless.
Qed.

Lemma signless_not_negative (x : float32) :
  signless x = true -> fltb x f0 = false.
Proof. destruct x as [[|]|[|]| |[|] m e]; cbn; congruence. Qed.

(** X11. In binary32, [cosTerm] never returns a negative value: whatever
    the directions, the normals and the transport direction, the result is
    not below zero (it is zero, positive, infinite or NaN). *)
Theorem cosTerm_never_negative (wo wi : Vec3f float32)
        (s : SurfaceInfo float32) (td : TransportDirection) :
  fltb (cosTerm wo wi s td) f0 = false.
Proof.
  unfold cosTerm. cbv zeta.
  destruct (_ || _)%bool; [reflexivity|].
  apply signless_not_negative. destruct td.
  - apply fabs_signless.
  - apply fdiv_signless; [apply fmul_signless|]; apply fabs_signless.
Qed.

(** *** Division by the disk area when the k-th photon is at distance 0 *)

Lemma fmul_by_zero (y z : float32) :
  is_zero z = true -> is_zero (fmul y z) || fisnan (fmul y z) = true.
Proof.
  change (fmul y z) with (SFmul prec emax y z).
  destruct z as [sz|sz| |sz mz ez]; try discriminate.
  destruct y; reflexivity.
Qed.

Lemma fdiv_by_zero_or_nan (x d : float32) :
  is_zero d || fisnan d = true -> nonfinite (fdiv x d) = true.
Proof.
  change (fdiv x d) with (SFdiv prec emax x d).
  destruct d as [sd|sd| |sd md ed]; try discriminate;
    destruct x; reflexivity.
Qed.

Section WithScene.
Context {SM : SceneModel float32}.

(** X12. Neither estimator guards the division by [N · π · r²]: when the
    query returns at least one photon and the squared radius 0 (the returned
    photons lie at the query point), every channel of the estimate is an
    infinity or a NaN, whatever the photons, the counts and the value of
    [PI]. *)
Theorem estimate_at_zero_radius_is_not_finite
        (this : PhotonMapping float32) (wo : Vec3f float32)
        (info : IntersectInfo float32 Primitive)
        (i : Z) (rest : list Z) (r2 : float32) :
  is_zero r2 = true ->
  (queryKNearestPhotons (globalPhotonMap this)
     (position (surfaceInfo info)) (nEstimationGlobal this)
   = (i :: rest, r2) ->
   let L := computeRadianceWithPhotonMap this wo info in
   nonfinite (vx L) && nonfinite (vy L) && nonfinite (vz L) = true) /\
  (queryKNearestPhotons (causticsPhotonMap this)
     (position (surfaceInfo info)) (nEstimationGlobal this)
   = (i :: rest, r2) ->
   let L := computeCausticsWithPhotonMap this wo info in
   nonfinite (vx L) && nonfinite (vy L) && nonfinite (vz L) = true).
Proof.
  intros Hz.
  split; intros Hq; cbv zeta;
    [unfold computeRadianceWithPhotonMap
    |unfold computeCausticsWithPhotonMap];
    rewrite Hq; cbn [List.length Z.of_nat Z.ltb Z.compare vdivs vx vy vz];
    rewrite !fdiv_by_zero_or_nan; try reflexivity;
    now apply fmul_by_zero.
Qed.
End WithScene.

(** *** Order on binary32 values that are not NaN *)

Lemma SFcompare_antisym (a b : float32) (c : comparison) :
  SFcompare a b = Some c -> SFcompare b a = Some (CompOpp c).
Proof.
  destruct a as [sa|sa| |sa ma ea], b as [sb|sb| |sb mb eb];
    cbn [SFcompare]; try discriminate;
    try (destruct sa; intros [= <-]; reflexivity);
    try (destruct sb; intros [= <-]; reflexivity);
    try (destruct sa, sb; intros [= <-]; reflexivity).
  intros [= <-]. f_equal.
  rewrite (Z.compare_antisym ea eb).
  pose proof (Pos.compare_cont_antisym ma mb Eq) as Hm.
  cbn [CompOpp] in Hm.
  destruct sa, sb; try reflexivity;
    destruct (ea ?= eb)%Z; cbn [CompOpp]; try reflexivity;
    rewrite <- Hm; rewrite ?CompOpp_involutive; reflexivity.
Qed.

Lemma not_less_is_greater_equal (a b : float32) :
  fisnan a = false -> fisnan b = false ->
  fltb a b = false -> fleb b a = true.
Proof.
  change (fltb a b) with (SFltb a b). change (fleb b a) with (SFleb b a).
  unfold SFltb, SFleb. intros Ha Hb.
  destruct (SFcompare a b) as [c|] eqn:Hc.
  - rewrite (SFcompare_antisym a b c Hc). destruct c; cbn; congruence.
  - destruct a, b; cbn in *; try discriminate;
      repeat match goal with s : bool |- _ => destruct s end; discriminate.
Qed.

Lemma usable_channel (t : Vec3f float32) :
  throughputUsable t = true ->
  (fisnan (vx t) = false /\ fltb (vx t) f0 = false) /\
  (fisnan (vy t) = false /\ fltb (vy t) f0 = false) /\
  (fisnan (vz t) = false /\ fltb (vz t) f0 = false).
Proof.
  intros Hu. apply andb_prop in Hu as [Hn Hm].
  apply negb_true_iff in Hn, Hm. unfold vany in Hn, Hm.
  apply orb_false_elim in Hn as [Hn Hnz], Hm as [Hm Hmz].
  apply orb_false_elim in Hn as [Hnx Hny], Hm as [Hmx Hmy].
  now repeat split.
Qed.

(** X13. In binary32, a throughput that passed the NaN and sign checks
    gives a survival probability [q = min(max(channels), 1)] that is a
    number between 0 and 1. *)
Theorem roulette_probability_in_unit_interval (t : Vec3f float32) :
  throughputUsable t = true ->
  let q := fmin (fmax (vx t) (fmax (vy t) (vz t))) f1 in
  fisnan q = false /\ fleb f0 q = true /\ fleb q f1 = true.
Proof.
  intros Hu. cbv zeta.
  destruct (usable_channel t Hu) as ((Hnx & Hx) & (Hny & Hy) & (Hnz & Hz)).
  assert (Hch : forall c : float32,
             fisnan c = false -> fltb c f0 = false ->
             let q := fmin c f1 in
             fisnan q = false /\ fleb f0 q = true /\ fleb q f1 = true).
  { intros c Hn Hc. cbv zeta. unfold fmin.
    destruct (fltb f1 c) eqn:H1.
    - now repeat split.
    - repeat split; [exact Hn | |].
      + now apply not_less_is_greater_equal.
      + now apply not_less_is_greater_equal. }
  unfold fmax.
  destruct (fltb (vy t) (vz t));
    match goal with
    | |- context [fltb (vx t) ?m] => destruct (fltb (vx t) m)
    end; now apply Hch.
Qed.

(** *** A photon whose throughput is zero *)

Lemma fmax_zero (a b : float32) :
  is_zero a = true -> is_zero b = true -> is_zero (fmax a b) = true.
Proof. intros Ha Hb. unfold fmax. now destruct (fltb a b). Qed.

Lemma fmin_zero_one (z : float32) : is_zero z = true -> fmin z f1 = z.
Proof. destruct z; try discriminate. reflexivity. Qed.

Lemma fleb_zero_sign (z u : float32) :
  is_zero z = true -> fleb z u = fleb f0 u.
Proof. destruct z; try discriminate. destruct u; reflexivity. Qed.

Lemma zero_throughput_usable (t : Vec3f float32) :
  is_zero (vx t) && is_zero (vy t) && is_zero (vz t) = true ->
  throughputUsable t = true.
Proof.
  destruct t as [x y z]. cbn [vx vy vz]. intros Hz.
  apply andb_prop in Hz as [Hz Hzz]. apply andb_prop in Hz as [Hzx Hzy].
  destruct x, y, z; try discriminate; reflexivity.
Qed.

Section DeadPhoton.
Context {SM : SceneModel float32}.

(** X14. In binary32, a photon whose throughput has dropped to zero in
    every channel does not travel on: at a hit with [k > 0], provided the
    variate drawn is a number that is at least 0, the roulette ends the path
    in both passes.  In the global pass the hit is still recorded first, so
    a photon of zero power is stored when the surface is diffuse. *)
Theorem zero_throughput_ends_the_path (scene : Scene) (k : Z)
        (st : PathState) (info : IntersectInfo float32 Primitive) :
  let t := throughput st in
  is_zero (vx t) && is_zero (vy t) && is_zero (vz t) = true ->
  intersect scene (ray st) = Some info ->
  (0 < k)%Z ->
  fleb f0 (fst (getNext1D (path_sampler st))) = true ->
  globalBounce scene k st
  = Break (globalDeposit info st) (snd (getNext1D (path_sampler st))) /\
  (getBxDFType (hitPrimitive info) <> DIFFUSE ->
   causticsBounce scene k st
   = Break [] (snd (getNext1D (path_sampler st)))).
Proof.
  cbv zeta. intros Hz Hhit Hk Hu.
  pose proof (zero_throughput_usable _ Hz) as Husable.
  assert (Hq : fgeb (fst (getNext1D (path_sampler st)))
                 (fmin (fmax (vx (throughput st))
                          (fmax (vy (throughput st)) (vz (throughput st))))
                    f1) = true).
  { apply andb_prop in Hz as [Hz Hzz]. apply andb_prop in Hz as [Hzx Hzy].
    pose proof (fmax_zero _ _ Hzx (fmax_zero _ _ Hzy Hzz)) as Hm.
    rewrite (fmin_zero_one _ Hm). unfold fgeb.
    now rewrite (fleb_zero_sign _ _ Hm). }
  split.
  - rewrite (globalBounce_described scene k st info Husable Hhit).
    rewrite russianRoulette_later_bounce by exact Hk.
    cbv zeta. now rewrite Hq.
  - intros Hnd.
    rewrite (causticsBounce_described scene k st info Husable Hhit Hnd).
    rewrite russianRoulette_later_bounce by exact Hk.
    cbv zeta. now rewrite Hq.
Qed.
End DeadPhoton.

(** *** Sums of values that passed the checks *)

Lemma shr_1_nonneg (mrs : shr_record) :
  (0 <= shr_m mrs)%Z -> (0 <= shr_m (shr_1 mrs))%Z.
Proof.
  destruct mrs as [m r s]. cbn [shr_m].
  destruct m as [|p|p]; [cbn; lia| |lia].
  intros _. destruct p; cbn; lia.
Qed.

Lemma iter_shr_1_nonneg (p : positive) :
  forall mrs, (0 <= shr_m mrs)%Z -> (0 <= shr_m (iter_pos shr_1 p mrs))%Z.
Proof.
  induction p as [p IH|p IH|]; intros mrs Hm; cbn [iter_pos].
  - apply IH, IH, shr_1_nonneg, Hm.
  - apply IH, IH, Hm.
  - apply shr_1_nonneg, Hm.
Qed.

Lemma shr_fexp_nonneg (m e : Z) (l : location) :
  (0 <= m)%Z -> (0 <= shr_m (fst (shr_fexp prec emax m e l)))%Z.
Proof.
  intros Hm. unfold shr_fexp, shr.
  assert (H0 : (0 <= shr_m (shr_record_of_loc m l))%Z)
    by (destruct l as [|[| |]]; exact Hm).
  destruct (fexp prec emax (Zdigits2 m + e) - e)%Z; cbn [fst];
    [exact H0 | now apply iter_shr_1_nonneg | exact H0].
Qed.

Lemma round_nearest_even_nonneg (m : Z) (l : location) :
  (0 <= m)%Z -> (0 <= round_nearest_even m l)%Z.
Proof.
  intros Hm. destruct l as [|[| |]]; cbn [round_nearest_even]; try lia.
  destruct (Z.even m); lia.
Qed.

Lemma binary_round_aux_not_nan (sx : bool) (m e : Z) (l : location) :
  (0 <= m)%Z -> fisnan (binary_round_aux prec emax sx m e l) = false.
Proof.
  intros Hm. unfold binary_round_aux.
  pose proof (shr_fexp_nonneg m e l Hm) as H1.
  destruct (shr_fexp prec emax m e l) as [mrs' e']. cbn [fst] in H1.
  pose proof (shr_fexp_nonneg _ e' loc_Exact
                (round_nearest_even_nonneg _ (loc_of_shr_record mrs') H1))
    as H2.
  destruct (shr_fexp prec emax _ e' loc_Exact) as [mrs'' e''].
  cbn [fst] in H2.
  destruct (shr_m mrs''); [reflexivity| |lia].
  destruct (e'' <=? emax - prec)%Z; reflexivity.
Qed.

Lemma fadd_checked (x y : float32) :
  fisnan x = false -> fltb x f0 = false ->
  fisnan y = false -> fltb y f0 = false ->
  fisnan (fadd x y) = false /\ fltb (fadd x y) f0 = false.
Proof.
  change (fadd x y) with (SFadd prec emax x y).
  destruct x as [sx|[|]| |[|] mx ex], y as [sy|[|]| |[|] my ey];
    cbn; intros Hnx Hx Hny Hy; try discriminate;
    try (split; reflexivity);
    try (destruct sx; split; reflexivity);
    try (destruct sy; split; reflexivity);
    try (destruct sx, sy; split; reflexivity).
  unfold binary_round.
  destruct (shl_align _ _ _) as [mz ez].
  split.
  - apply binary_round_aux_not_nan. lia.
  - apply signless_not_negative, binary_round_aux_signless.
Qed.

Lemma vadd_usable (a b : Vec3f float32) :
  throughputUsable a = true -> throughputUsable b = true ->
  throughputUsable (vadd a b) = true.
Proof.
  intros Ha Hb.
  destruct (usable_channel a Ha) as ((Hax & Hax') & (Hay & Hay') & Haz & Haz').
  destruct (usable_channel b Hb) as ((Hbx & Hbx') & (Hby & Hby') & Hbz & Hbz').
  destruct (fadd_checked (vx a) (vx b) Hax Hax' Hbx Hbx') as [Hx Hx'].
  destruct (fadd_checked (vy a) (vy b) Hay Hay' Hby Hby') as [Hy Hy'].
  destruct (fadd_checked (vz a) (vz b) Haz Haz' Hbz Hbz') as [Hz Hz'].
  unfold throughputUsable, vany, vadd. cbn [vx vy vz].
  now rewrite Hx, Hy, Hz, Hx', Hy', Hz'.
Qed.

Section PixelInvariant.
Context {SM : SceneModel float32}.

Lemma sampleLoop_keeps_pixel_usable (integrator : PhotonMapping float32)
      (scene : Scene) (width height i j : Z) (n : nat) :
  forall run,
    throughputUsable (pixel_value run) = true ->
    throughputUsable
      (pixel_value (sampleLoop integrator scene width height i j n run))
    = true.
Proof.
  induction n as [|n IH]; intros run Hrun; cbn [sampleLoop]; [exact Hrun|].
  destruct (getNext1D (pixel_sampler run)) as [x s1].
  destruct (getNext1D s1) as [y s2].
  destruct (sampleRay _ _) as [[r pdf]|]; [|now apply IH].
  destruct (integrate integrator r scene s2) as [L s3].
  destruct (vany fisnan (vdivs L pdf)) eqn:Hn; [now apply IH|].
  destruct (vany (fun c => fltb c f0) (vdivs L pdf)) eqn:Hneg;
    [now apply IH|].
  apply IH. cbn [pixel_value].
  apply vadd_usable; [exact Hrun|].
  unfold throughputUsable. now rewrite Hn, Hneg.
Qed.

(** X15. In binary32, whatever the scene, the photon maps, the camera and
    the sampler, the value accumulated for a pixel never has a NaN or a
    negative channel: samples that fail the checks of the render loop are
    left out, and the sum of values that passed them passes them too. *)
Theorem pixel_value_passes_the_checks (integrator : PhotonMapping float32)
        (scene : Scene) (width height n_samples i j : Z) :
  throughputUsable
    (pixel_value (renderPixel integrator scene width height n_samples i j))
  = true.
Proof.
  unfold renderPixel. apply sampleLoop_keeps_pixel_usable. reflexivity.
Qed.
End PixelInvariant.
End Float32Facts.

Section Float32Guards.
Import Binary32.

Lemma binary_round_aux_negative (m e : Z) (l : location) :
  fisnan (binary_round_aux prec emax true m e l) = false ->
  fleb (binary_round_aux prec emax true m e l) f0 = true.
Proof.
  unfold binary_round_aux.
  destruct (shr_fexp prec emax m e l) as [mrs' e'].
  destruct (shr_fexp prec emax _ e' loc_Exact) as [mrs'' e''].
  destruct (shr_m mrs''); [reflexivity| |discriminate].
  destruct (e'' <=? emax - prec)%Z; reflexivity.
Qed.

Lemma fmul_rejected (a b : float32) :
  fisnan (fmul a b) = false ->
  signbit a <> signbit b \/ is_zero a = true \/ is_zero b = true ->
  fleb (fmul a b) f0 = true.
Proof.
  change (fmul a b) with (SFmul prec emax a b).
  destruct a as [sa|sa| |sa ma ea], b as [sb|sb| |sb mb eb];
    cbn [SFmul signbit is_zero fisnan float32_arith is_nan];
    intros Hn [Hs | [Hz | Hz]]; try discriminate;
    try (destruct sa, sb; try reflexivity; now destruct Hs).
  destruct sa, sb; try (now destruct Hs);
    now apply binary_round_aux_negative.
Qed.

(** X16. In binary32 the light-leak guard of [cosTerm] rejects every
    direction whose cosines with the two normals have different sign bits,
    and every direction for which one of the two cosines is a zero, as long
    as their product is not a NaN; this holds for [wi] and for [wo], and for
    both transport directions. *)
Theorem cosTerm_rejects_split_hemispheres (wo wi : Vec3f float32)
        (s : SurfaceInfo float32) (td : TransportDirection) :
  let leaks (w : Vec3f float32) :=
    let ng := dot w (geometricNormal s) in
    let ns := dot w (shadingNormal s) in
    fisnan (fmul ng ns) = false /\
    (signbit ng <> signbit ns \/ is_zero ng = true \/ is_zero ns = true) in
  leaks wi \/ leaks wo -> cosTerm wo wi s td = f0.
Proof.
  cbv zeta. intros [[Hn Hs] | [Hn Hs]]; unfold cosTerm; cbv zeta.
  - now rewrite (fmul_rejected _ _ Hn Hs).
  - rewrite (fmul_rejected _ _ Hn Hs). now rewrite orb_true_r.
Qed.

Lemma to_int_times_zero (x : float32) : to_int (fmul x (of_int 0)) = 0%Z.
Proof. destruct x; reflexivity. Qed.

(** X17. A sixth argument that [atoi] reads as 0 (a fraction such as
    [0.5], a word, an empty string) leaves the renderer without caustics:
    in binary32 the integrator that [main] constructs has
    [nPhotonsCaustics = 0], and after [build] its caustics map is empty,
    whatever the scene and the other arguments. *)
Theorem zero_multiplier_gives_no_caustics {SM : SceneModel float32}
        (c : list string) (scene : Scene) (sampler : Sampler)
        (nthreads : nat) (sg sc : Z -> nat) :
  atoi (nth 6 c EmptyString) = 0%Z ->
  let integrator := main_integrator (parseArgs c) in
  nPhotonsCaustics integrator = 0%Z /\
  photons (causticsPhotonMap (build integrator scene sampler nthreads sg sc))
  = [].
Proof.
  intros Hatoi. cbv zeta.
  assert (Hn : nPhotonsCaustics (main_integrator (parseArgs (F := float32) c))
               = 0%Z).
  { unfold main_integrator, parseArgs, PhotonMapping_new.
    cbn [nPhotonsCaustics n_photons n_photons_caustics_multiplier].
    rewrite Hatoi. apply to_int_times_zero. }
  split; [exact Hn|].
  unfold build.
  destruct (photonLoop (traceGlobalPhoton _ scene) _ _ _ _ _) as [ps ss].
  cbn [finalGatheringDepth set_globalPhotonMap nPhotonsCaustics].
  destruct (finalGatheringDepth _ >? 0)%Z.
  - cbn [nPhotonsCaustics set_globalPhotonMap] in *. rewrite Hn.
    reflexivity.
  - reflexivity.
Qed.
End Float32Guards.

(** * The further properties on the concrete world *)

Lemma glass_only_has_no_diffuse :
  noDiffuse (SM := Example.toy_world) Example.glass_only.
Proof.
  intros r info. cbn. unfold Example.glass_only, Example.hit_plane.
  destruct (_ && _)%bool; [|discriminate].
  destruct (fleb _ _); [|discriminate].
  intros [= <-]. discriminate.
Qed.

Lemma stored_photons_are_checked_diffuse_hits_witness :
  depositedAt (SM := Example.toy_world) Example.glass_over_floor
    Example.first_global_photon /\
  depositedAt (SM := Example.toy_world) Example.glass_over_floor
    Example.first_caustics_photon.
Proof.
  split.
  - apply (proj1 (stored_photons_are_checked_diffuse_hits
                    (SM := Example.toy_world) Example.two_counts
                    Example.glass_over_floor Example.first_sampler 1
                    (fun _ => O) (fun _ => O) Example.first_global_photon)).
    apply nth_In. vm_compute. lia.
  - apply (proj2 (stored_photons_are_checked_diffuse_hits
                    (SM := Example.toy_world) Example.two_counts
                    Example.glass_over_floor Example.first_sampler 1
                    (fun _ => O) (fun _ => O) Example.first_caustics_photon)).
    + reflexivity.
    + apply nth_In. vm_compute. lia.
Defined.

Lemma store_sizes_are_bounded_witness :
  (List.length (photons (globalPhotonMap Example.built_two_counts))
   <= 3 * 4)%nat /\
  (List.length (photons (causticsPhotonMap Example.built_two_counts))
   <= 3)%nat.
Proof.
  destruct (store_sizes_are_bounded (SM := Example.toy_world)
              Example.two_counts Example.glass_over_floor
              Example.first_sampler 1 (fun _ => O) (fun _ => O))
    as [Hg Hc].
  split; [exact Hg | apply Hc; reflexivity].
Defined.

Lemma caustics_photons_follow_specular_witness :
  causticOfLight (SM := Example.toy_world) Example.glass_over_floor
    Example.first_caustics_photon.
Proof.
  apply (caustics_photons_follow_specular (SM := Example.toy_world)
           Example.two_counts Example.glass_over_floor
           Example.first_sampler 1 (fun _ => O) (fun _ => O)).
  - reflexivity.
  - apply nth_In. vm_compute. lia.
Defined.

Lemma caustics_map_needs_two_bounces_witness :
  photons (causticsPhotonMap
             (build Example.one_bounce Example.glass_over_floor
                Example.first_sampler 1 (fun _ => O) (fun _ => O))) = [].
Proof.
  apply (caustics_map_needs_two_bounces (SM := Example.toy_world));
    [cbn; lia | reflexivity].
Defined.

Lemma no_diffuse_surface_no_photon_witness :
  let built := build Example.two_counts Example.glass_only
                 Example.first_sampler 1 (fun _ => O) (fun _ => O) in
  photons (globalPhotonMap built) = [] /\
  photons (causticsPhotonMap built) = [].
Proof.
  cbv zeta.
  destruct (no_diffuse_surface_no_photon (SM := Example.toy_world)
              Example.two_counts Example.glass_only Example.first_sampler 1
              (fun _ => O) (fun _ => O) glass_only_has_no_diffuse)
    as [Hg Hc].
  split; [exact Hg | apply Hc; reflexivity].
Defined.

Lemma global_path_records_first_hit_witness :
  exists rest,
    fst (traceGlobalPhoton Example.two_counts Example.floor_only
           Example.first_sampler)
    = mkPhoton (snd (fst Example.emitted))
        (position (surfaceInfo Example.emitted_hit))
        (vneg (direction (fst (fst Example.emitted)))) :: rest.
Proof.
  apply (global_path_records_first_hit (SM := Example.toy_world)
           Example.two_counts Example.floor_only Example.first_sampler
           (snd Example.emitted) (fst (fst Example.emitted))
           (snd (fst Example.emitted)) Example.emitted_hit).
  - vm_compute. reflexivity.
  - vm_compute. reflexivity.
  - vm_compute. reflexivity.
  - vm_compute. reflexivity.
  - cbn. lia.
Defined.

Lemma caustics_side_is_shallow_only_witness :
  integrate Example.no_gathering Example.falling_ray
    Example.glass_over_floor Example.first_sampler
  = integrate Example.no_gathering_twin Example.falling_ray
      Example.glass_over_floor Example.first_sampler /\
  computeIndirectIllumination Example.no_gathering Example.glass_over_floor
    Example.up Example.floor_hit Example.first_sampler
  = computeIndirectIllumination Example.no_gathering_twin
      Example.glass_over_floor Example.up Example.floor_hit
      Example.first_sampler.
Proof.
  assert (Hsame : sameButCaustics Example.no_gathering
                    Example.no_gathering_twin)
    by (repeat split; reflexivity).
  destruct (caustics_side_is_shallow_only (SM := Example.toy_world)
              Example.no_gathering Example.no_gathering_twin Hsame)
    as (Hi & _ & Hf).
  split.
  - apply Hf. cbn. lia.
  - apply Hi.
Defined.

Lemma pixel_seeds_are_distinct_witness :
  (1 = 1 /\ 0 = 0) /\ pixelSeed 640 1 0 <> pixelSeed 640 0 639.
Proof.
  split.
  - apply (pixel_seeds_are_distinct 640 480 1 0 1 0);
      [lia | lia | lia | lia | lia | reflexivity].
  - intros Heq.
    destruct (pixel_seeds_are_distinct 640 480 1 0 0 639
                ltac:(lia) ltac:(lia) ltac:(lia) ltac:(lia) ltac:(lia) Heq)
      as [Hi _].
    discriminate Hi.
Defined.

Lemma estimate_at_zero_radius_is_not_finite_witness :
  let Lg := computeRadianceWithPhotonMap Example.coincident Example.up
              Example.floor_hit in
  let Lc := computeCausticsWithPhotonMap Example.coincident Example.up
              Example.floor_hit in
  nonfinite (vx Lg) && nonfinite (vy Lg) && nonfinite (vz Lg) = true /\
  nonfinite (vx Lc) && nonfinite (vy Lc) && nonfinite (vz Lc) = true.
Proof.
  cbv zeta.
  destruct (estimate_at_zero_radius_is_not_finite (SM := Example.toy_world)
              Example.coincident Example.up Example.floor_hit 0 []
              (Binary32.of_Z 0) eq_refl) as [Hg Hc].
  split; [apply Hg | apply Hc]; vm_compute; reflexivity.
Defined.

Lemma roulette_probability_in_unit_interval_witness :
  let q := fmin (fmax Example.half (fmax Example.half Example.half)) f1 in
  fisnan q = false /\ fleb f0 q = true /\ fleb q f1 = true.
Proof.
  apply (roulette_probability_in_unit_interval (Vec3f_fill Example.half)).
  vm_compute. reflexivity.
Defined.

Lemma zero_throughput_ends_the_path_witness :
  let st := Example.falling_dead in
  let drawn := snd (getNext1D (path_sampler st)) in
  globalBounce Example.glass_over_floor 1 st
  = Break (globalDeposit Example.glass_hit st) drawn /\
  causticsBounce Example.glass_over_floor 1 st = Break [] drawn.
Proof.
  cbv zeta.
  assert (Hhit : intersect Example.glass_over_floor
                   (ray Example.falling_dead) = Some Example.glass_hit)
    by (vm_compute; reflexivity).
  assert (Hu : fleb f0 (fst (getNext1D (path_sampler Example.falling_dead)))
               = true) by (vm_compute; reflexivity).
  destruct (zero_throughput_ends_the_path (SM := Example.toy_world)
              Example.glass_over_floor 1 Example.falling_dead
              Example.glass_hit eq_refl Hhit ltac:(lia) Hu) as [Hg Hc].
  split; [exact Hg | apply Hc; discriminate].
Defined.

Lemma cosTerm_rejects_split_hemispheres_witness :
  cosTerm Example.up Example.up
    (mkSurfaceInfo Example.up Example.up Example.down) FROM_CAMERA = f0 /\
  cosTerm (Example.V (Binary32.of_Z 1) (Binary32.of_Z 0) (Binary32.of_Z 0))
    Example.up (mkSurfaceInfo Example.up Example.up Example.up) FROM_LIGHT
  = f0.
Proof.
  split.
  - apply cosTerm_rejects_split_hemispheres. left. split.
    + vm_compute. reflexivity.
    + left. vm_compute. discriminate.
  - apply cosTerm_rejects_split_hemispheres. right. split.
    + vm_compute. reflexivity.
    + right. left. vm_compute. reflexivity.
Defined.

Lemma zero_multiplier_gives_no_caustics_witness :
  let integrator :=
    main_integrator (parseArgs (F := Binary32.float32) Example.half_argv) in
  nPhotonsCaustics integrator = 0 /\
  photons (causticsPhotonMap
             (build integrator Example.glass_over_floor
                Example.first_sampler 1 (fun _ => O) (fun _ => O))) = [].
Proof.
  apply (zero_multiplier_gives_no_caustics (SM := Example.toy_world)
           Example.half_argv Example.glass_over_floor Example.first_sampler
           1 (fun _ => O) (fun _ => O)).
  vm_compute. reflexivity.
Defined.
